(** * keia-api: the assessment pipeline

    A shallow embedding of the three serverless handlers of the repository
    (speaking, writing and placement assessment) and of the helpers they
    share: multiple-choice grading, the score-to-level map, the streak
    computation, the clean-up of the language model's reply and the poll loop
    of the transcription job.

    Conventions of the embedding.
    - A JavaScript string is the list of its UTF-16 code units ([list N]).
    - A JavaScript number is an IEEE 754 binary64 value ([float], the
      primitive floats of the prover), so arithmetic rounds as it does in
      the program.
    - A JSON value is a term of [json]; [option json] adds [undefined].
    - Exceptions are values of [exn], threaded through the [res] monad.
    - The document store is a finite map from the paths of the documents
      below [users] (for a user, the user id) to user records, plus
      the list of appended history entries.
    - What the providers answer, what time it is, and whether the store
      accepts a call are inputs of a handler ([env]). *)

From ITree Require Import ITree ITreeFacts.
From Stdlib Require Import ZArith List Bool Lia Floats DecimalString.
From Stdlib Require Strings.String Strings.Ascii.
From stdpp Require Import gmap list strings.

Set Warnings "-inexact-float,-register-all".
Local Open Scope Z_scope.

(** ** Strings *)

Abbreviation jstring := (list N).

(** [u] reads an ASCII literal as a JavaScript string. *)
Fixpoint u (s : String.string) : jstring :=
  match s with
  | String.EmptyString => []
  | String.String a s' => Ascii.N_of_ascii a :: u s'
  end.

Arguments u s%_string_scope.

(** [uq] does the same and turns every apostrophe into a double quote, so
    that JSON texts can be written down as literals. *)
Definition uq (s : String.string) : jstring :=
  List.map (fun c => if (c =? 39)%N then 34%N else c) (u s).

Arguments uq s%_string_scope.

Fixpoint str_eqb (s t : jstring) : bool :=
  match s, t with
  | [], [] => true
  | a :: s', b :: t' => (a =? b)%N && str_eqb s' t'
  | _, _ => false
  end.

(** ** Numbers *)

Module Num.

(** The numbers that count as false in a condition: [NaN], [+0] and [-0]. *)
Definition falsy (x : float) : bool := is_nan x || is_zero x.

(** The nearest binary64 value of an integer. *)
Definition of_Z (z : Z) : float := SF2Prim (binary_normalize prec emax z 0 false).

Definition of_nat (n : nat) : float := of_Z (Z.of_nat n).

(** [Math.max] of two numbers. *)
Definition Math_max (a b : float) : float :=
  if is_nan a || is_nan b then nan
  else if (a <? b)%float then b
  else if (b <? a)%float then a
  else if is_zero a then (if get_sign a then b else a)
  else a.

(** [Math.round]: the nearest integer, ties towards plus infinity; the
    sign of a zero result is the sign of the argument. *)
Definition Math_round (x : float) : float :=
  match Prim2SF x with
  | S754_finite s m e =>
      if (0 <=? e)%Z then x
      else
        let n := if s then Zneg m else Zpos m in
        let d := 2 ^ (- e) in
        let r := (2 * n + d) / (2 * d) in
        if (r =? 0)%Z then (if s then neg_zero else zero) else of_Z r
  | _ => x
  end.

End Num.

(** ** Values *)

Inductive json : Type :=
| JNull
| JBool (b : bool)
| JNum (x : float)
| JStr (s : jstring)
| JArr (l : list json)
| JObj (m : list (jstring * json)).

(** [None] is [undefined]. *)
Abbreviation jsval := (option json).

Inductive exn : Type :=
| TypeError          (* a property of null or undefined, a call of a non-function *)
| SyntaxError        (* JSON.parse, Response.json *)
| RangeError         (* toISOString of an invalid date *)
| FetchError         (* fetch rejected: the provider could not be reached *)
| DbError            (* the document store, or its client, refused a call *)
| Error (msg : jstring).

Inductive res (A : Type) : Type :=
| Ok (a : A)
| Throw (e : exn).
Arguments Ok {A} a.
Arguments Throw {A} e.

#[global] Instance res_ret : MRet res := fun _ a => Ok a.
#[global] Instance res_bind : MBind res :=
  fun _ _ f m => match m with Ok a => f a | Throw e => Throw e end.

Module JS.

Definition truthy (v : jsval) : bool :=
  match v with
  | None | Some JNull => false
  | Some (JBool b) => b
  | Some (JNum x) => negb (Num.falsy x)
  | Some (JStr s) => match s with [] => false | _ => true end
  | Some (JArr _) | Some (JObj _) => true
  end.

(** [a || b]. *)
Definition or (a b : jsval) : jsval := if truthy a then a else b.

(** [a ?? b]. *)
Definition nullish (a b : jsval) : jsval :=
  match a with None | Some JNull => b | _ => a end.

(** [a === b].  Arrays and objects are compared by identity; the two sides
    of every comparison of the program come from different places (a
    literal of the program against a value parsed from a message), so two
    of them are never the same object. *)
Definition strict_eq (a b : jsval) : bool :=
  match a, b with
  | None, None => true
  | Some JNull, Some JNull => true
  | Some (JBool x), Some (JBool y) => Bool.eqb x y
  | Some (JNum x), Some (JNum y) => (x =? y)%float
  | Some (JStr s), Some (JStr t) => str_eqb s t
  | _, _ => false
  end.

Fixpoint assoc (k : jstring) (m : list (jstring * json)) : jsval :=
  match m with
  | [] => None
  | (k', v) :: m' => if str_eqb k k' then Some v else assoc k m'
  end.

(** [j.k] for a value that is neither null nor undefined, and a key that
    no prototype defines (all keys the program reads are of that kind). *)
Definition get (j : json) (k : jstring) : jsval :=
  match j with JObj m => assoc k m | _ => None end.

(** [v.k]: throws on null and undefined. *)
Definition prop (v : jsval) (k : jstring) : res jsval :=
  match v with
  | None | Some JNull => Throw TypeError
  | Some j => Ok (get j k)
  end.

(** [v?.k]. *)
Definition opt_prop (v : jsval) (k : jstring) : jsval :=
  match v with
  | None | Some JNull => None
  | Some j => get j k
  end.

(** [v?.[0]]. *)
Definition opt_first (v : jsval) : jsval :=
  match v with
  | Some (JArr l) => head l
  | Some (JStr s) => match s with [] => None | c :: _ => Some (JStr [c]) end
  | Some (JObj m) => assoc (u "0") m
  | _ => None
  end.

End JS.

(** What the embedding leaves to the host: the conversions of values that
    are not already of the target type.  Every definition below takes them as
    a parameter, and every theorem holds for all of them. *)
Record host := {
  ToString : json -> jstring;        (* String(v) for v not a string *)
  ToNumber : json -> float;          (* Number(v) for v a non-empty string, an array or an object *)
  JSON_stringify : json -> jstring   (* JSON.stringify(v) *)
}.

Module Coerce.

(** [String(v)] of a value that is not undefined. *)
Definition String_ (h : host) (j : json) : jstring :=
  match j with JStr s => s | _ => ToString h j end.

(** [Number(v)]. *)
Definition Number_ (h : host) (v : jsval) : float :=
  match v with
  | None => nan
  | Some JNull => zero
  | Some (JBool b) => if b then one else zero
  | Some (JNum x) => x
  | Some (JStr []) => zero
  | Some j => ToNumber h j
  end.

End Coerce.

(** ** String operations of the runtime *)

Module Str.

(** White space and line terminators, as [String.prototype.trim] sees them. *)
Definition is_space (c : N) : bool :=
  ((9 <=? c) && (c <=? 13) || (c =? 32) || (c =? 160) || (c =? 5760)
   || (8192 <=? c) && (c <=? 8202) || (c =? 8232) || (c =? 8233) || (c =? 8239)
   || (c =? 8287) || (c =? 12288) || (c =? 65279))%N.

Fixpoint trim_start (s : jstring) : jstring :=
  match s with
  | [] => []
  | c :: s' => if is_space c then trim_start s' else s
  end.

Definition trim_end (s : jstring) : jstring := rev (trim_start (rev s)).

(** [s.trim()]. *)
Definition trim (s : jstring) : jstring := trim_end (trim_start s).

(** Upper case of an ASCII letter; the canonical form under the [i] flag of
    a regular expression whose pattern is ASCII. *)
Definition upper (c : N) : N :=
  if ((97 <=? c) && (c <=? 122))%N then (c - 32)%N else c.

Definition char_eq (ci : bool) (p c : N) : bool :=
  if ci then (upper p =? upper c)%N else (p =? c)%N.

Fixpoint starts_with (ci : bool) (pat s : jstring) : bool :=
  match pat, s with
  | [], _ => true
  | p :: pat', c :: s' => char_eq ci p c && starts_with ci pat' s'
  | _ :: _, [] => false
  end.

(** Scan from left to right; [skip] counts the characters of the current
    match that are still to be dropped. *)
Fixpoint remove_from (ci : bool) (pat : jstring) (skip : nat) (s : jstring) : jstring :=
  match s with
  | [] => []
  | c :: s' =>
      match skip with
      | S k => remove_from ci pat k s'
      | O =>
          if starts_with ci pat s
          then remove_from ci pat (length pat - 1) s'
          else c :: remove_from ci pat 0 s'
      end
  end.

(** [s.replace(/pat/g, "")], or [/pat/gi] when [ci], for a literal pattern. *)
Definition remove_all (ci : bool) (pat s : jstring) : jstring :=
  remove_from ci pat 0 s.

Definition fence : jstring := u "```".
Definition fence_json : jstring := u "```json".

(** [String(raw).replace(/```json/gi,"").replace(/```/g,"").trim()]. *)
Definition clean (raw : jstring) : jstring :=
  trim (remove_all false fence (remove_all true fence_json raw)).

Definition lbrace : N := 123.
Definition rbrace : N := 125.

(** The suffix that starts at the first [c]. *)
Fixpoint from_first (c : N) (s : jstring) : option jstring :=
  match s with
  | [] => None
  | x :: s' => if (x =? c)%N then Some s else from_first c s'
  end.

(** The prefix that ends at the last [c]. *)
Fixpoint through_last (c : N) (s : jstring) : option jstring :=
  match s with
  | [] => None
  | x :: s' =>
      match through_last c s' with
      | Some p => Some (x :: p)
      | None => if (x =? c)%N then Some [x] else None
      end
  end.

(** [raw.match(/\{[\s\S]*\}/)]: the leftmost match starts at the first
    opening brace, and the greedy star runs to the last closing brace. *)
Definition match_object (raw : jstring) : option jstring :=
  match from_first lbrace raw with
  | Some (b :: s') =>
      match through_last rbrace s' with
      | Some p => Some (b :: p)
      | None => None
      end
  | _ => None
  end.

End Str.

(** ** JSON.parse *)

Module JSON.

Inductive token : Type :=
| TLBrace | TRBrace | TLBracket | TRBracket | TColon | TComma
| TString (s : jstring)
| TWord (w : jstring).       (* a number or one of true, false, null *)

(** *** Numbers *)

Definition is_digit (c : N) : bool := ((48 <=? c) && (c <=? 57))%N.

Fixpoint span_digits (s : jstring) : jstring * jstring :=
  match s with
  | c :: s' =>
      if is_digit c then let '(d, r) := span_digits s' in (c :: d, r) else ([], s)
  | [] => ([], [])
  end.

Definition digits_value (ds : jstring) : Z :=
  fold_left (fun acc c => 10 * acc + (Z.of_N c - 48)) ds 0.

(** The binary64 value nearest to [(-1)^neg * m * 10^e]. *)
Definition decimal (neg : bool) (m e : Z) : float :=
  match m with
  | Zpos p =>
      if (0 <=? e)%Z
      then SF2Prim (binary_normalize prec emax (if neg then - (m * 10 ^ e) else m * 10 ^ e) 0 false)
      else SF2Prim (SFdiv prec emax (S754_finite neg p 0)
                                    (S754_finite false (Z.to_pos (10 ^ (- e))) 0))
  | _ => if neg then neg_zero else zero
  end.

(** The number grammar of JSON: an optional minus sign; an integer part
    that is a single zero or starts with a non-zero digit; an optional
    fraction (a dot and at least one digit); an optional exponent (e or E,
    an optional sign, at least one digit). *)
Definition number (w : jstring) : option float :=
  let '(neg, w1) := match w with 45%N :: r => (true, r) | _ => (false, w) end in
  let '(ip, w2) := span_digits w1 in
  let int_ok := match ip with [] => false | [_] => true | 48%N :: _ => false | _ => true end in
  let '(fp, w3, frac_ok) :=
    match w2 with
    | 46%N :: r => let '(fp, r') := span_digits r in
                   (fp, r', match fp with [] => false | _ => true end)
    | _ => ([], w2, true)
    end in
  let '(ex, w4, exp_ok) :=
    match w3 with
    | c :: r =>
        if ((c =? 101) || (c =? 69))%N then
          let '(eneg, r1) :=
            match r with
            | 45%N :: r1 => (true, r1)
            | 43%N :: r1 => (false, r1)
            | _ => (false, r)
            end in
          let '(ep, r2) := span_digits r1 in
          (if eneg then - digits_value ep else digits_value ep, r2,
           match ep with [] => false | _ => true end)
        else (0, w3, true)
    | [] => (0, w3, true)
    end in
  match w4 with
  | [] =>
      if int_ok && frac_ok && exp_ok
      then Some (decimal neg (digits_value (ip ++ fp)) (ex - Z.of_nat (length fp)))
      else None
  | _ => None
  end.

Definition word_value (w : jstring) : option json :=
  if str_eqb w (u "true") then Some (JBool true)
  else if str_eqb w (u "false") then Some (JBool false)
  else if str_eqb w (u "null") then Some JNull
  else JNum <$> number w.

(** *** The lexer: one pass over the text *)

Inductive lstate : Type :=
| LTop                                    (* between tokens *)
| LStr (acc : jstring)                    (* in a string; [acc] is reversed *)
| LEsc (acc : jstring)                    (* after a backslash *)
| LHex (acc : jstring) (n : nat) (v : N)  (* in \uXXXX, [n] digits to go *)
| LWord (acc : jstring).                  (* in a number or a name; reversed *)

Definition is_ws (c : N) : bool := ((c =? 32) || (c =? 9) || (c =? 10) || (c =? 13))%N.

Definition is_word_char (c : N) : bool :=
  (is_digit c || (97 <=? c) && (c <=? 122) || (65 <=? c) && (c <=? 90)
   || (c =? 43) || (c =? 45) || (c =? 46))%N.

Definition hex_digit (c : N) : option N :=
  if is_digit c then Some (c - 48)%N
  else if ((97 <=? c) && (c <=? 102))%N then Some (c - 87)%N
  else if ((65 <=? c) && (c <=? 70))%N then Some (c - 55)%N
  else None.

Definition escape (c : N) : option N :=
  if (c =? 34)%N then Some 34%N            (* quote *)
  else if (c =? 92)%N then Some 92%N       (* backslash *)
  else if (c =? 47)%N then Some 47%N       (* slash *)
  else if (c =? 98)%N then Some 8%N        (* b *)
  else if (c =? 102)%N then Some 12%N      (* f *)
  else if (c =? 110)%N then Some 10%N      (* n *)
  else if (c =? 114)%N then Some 13%N      (* r *)
  else if (c =? 116)%N then Some 9%N       (* t *)
  else None.

(** A character met between tokens; the tokens are collected in reverse. *)
Definition top_step (toks : list token) (c : N) : option (lstate * list token) :=
  if is_ws c then Some (LTop, toks)
  else if (c =? 123)%N then Some (LTop, TLBrace :: toks)
  else if (c =? 125)%N then Some (LTop, TRBrace :: toks)
  else if (c =? 91)%N then Some (LTop, TLBracket :: toks)
  else if (c =? 93)%N then Some (LTop, TRBracket :: toks)
  else if (c =? 58)%N then Some (LTop, TColon :: toks)
  else if (c =? 44)%N then Some (LTop, TComma :: toks)
  else if (c =? 34)%N then Some (LStr [], toks)
  else if is_word_char c then Some (LWord [c], toks)
  else None.

Definition lex_step (st : lstate) (toks : list token) (c : N)
  : option (lstate * list token) :=
  match st with
  | LTop => top_step toks c
  | LStr acc =>
      if (c =? 34)%N then Some (LTop, TString (rev acc) :: toks)
      else if (c =? 92)%N then Some (LEsc acc, toks)
      else if (c <? 32)%N then None
      else Some (LStr (c :: acc), toks)
  | LEsc acc =>
      if (c =? 117)%N then Some (LHex acc 4 0%N, toks)
      else match escape c with
           | Some x => Some (LStr (x :: acc), toks)
           | None => None
           end
  | LHex acc n v =>
      match hex_digit c with
      | Some d =>
          match n with
          | S O => Some (LStr ((16 * v + d)%N :: acc), toks)
          | S n' => Some (LHex acc n' (16 * v + d)%N, toks)
          | O => None
          end
      | None => None
      end
  | LWord acc =>
      if is_word_char c then Some (LWord (c :: acc), toks)
      else top_step (TWord (rev acc) :: toks) c
  end.

Fixpoint lex_from (st : lstate) (toks : list token) (s : jstring) : option (list token) :=
  match s with
  | [] =>
      match st with
      | LTop => Some (rev toks)
      | LWord acc => Some (rev (TWord (rev acc) :: toks))
      | _ => None
      end
  | c :: s' =>
      match lex_step st toks c with
      | Some (st', toks') => lex_from st' toks' s'
      | None => None
      end
  end.

Definition lex (s : jstring) : option (list token) := lex_from LTop [] s.

(** *** The parser: one pass over the tokens, with a stack of open containers *)

Inductive frame : Type :=
| FArr (acc : list json)                              (* elements so far, reversed *)
| FObj (acc : list (jstring * json))                  (* members so far *)
| FMember (acc : list (jstring * json)) (k : jstring) (* a member's value is due *).

Inductive mode : Type :=
| MValue        (* a value is due *)
| MArrFirst     (* after an opening bracket: a value or the closing bracket *)
| MObjFirst     (* after an opening brace: a key or the closing brace *)
| MObjKey       (* after a comma in an object: a key *)
| MColon        (* after a key: the colon *)
| MAfter        (* after a value in a container: a comma or the closing token *)
| MDone (v : json).

(** A later member with the same key replaces the value of the earlier. *)
Fixpoint put (k : jstring) (v : json) (m : list (jstring * json)) : list (jstring * json) :=
  match m with
  | [] => [(k, v)]
  | (k', v') :: m' => if str_eqb k k' then (k', v) :: m' else (k', v') :: put k v m'
  end.

Definition deliver (v : json) (stk : list frame) : option (mode * list frame) :=
  match stk with
  | [] => Some (MDone v, [])
  | FArr acc :: stk' => Some (MAfter, FArr (v :: acc) :: stk')
  | FMember acc k :: stk' => Some (MAfter, FObj (put k v acc) :: stk')
  | FObj _ :: _ => None
  end.

Definition value_step (stk : list frame) (t : token) : option (mode * list frame) :=
  match t with
  | TString s => deliver (JStr s) stk
  | TWord w => match word_value w with Some v => deliver v stk | None => None end
  | TLBracket => Some (MArrFirst, FArr [] :: stk)
  | TLBrace => Some (MObjFirst, FObj [] :: stk)
  | _ => None
  end.

Definition key_step (stk : list frame) (t : token) : option (mode * list frame) :=
  match t, stk with
  | TString k, FObj acc :: stk' => Some (MColon, FMember acc k :: stk')
  | _, _ => None
  end.

Definition close_step (stk : list frame) (t : token) : option (mode * list frame) :=
  match t, stk with
  | TRBracket, FArr acc :: stk' => deliver (JArr (rev acc)) stk'
  | TRBrace, FObj acc :: stk' => deliver (JObj acc) stk'
  | _, _ => None
  end.

Definition parse_step (m : mode) (stk : list frame) (t : token)
  : option (mode * list frame) :=
  match m with
  | MValue => value_step stk t
  | MArrFirst => match t with TRBracket => close_step stk t | _ => value_step stk t end
  | MObjFirst => match t with TRBrace => close_step stk t | _ => key_step stk t end
  | MObjKey => key_step stk t
  | MColon => match t with TColon => Some (MValue, stk) | _ => None end
  | MAfter =>
      match t, stk with
      | TComma, FArr _ :: _ => Some (MValue, stk)
      | TComma, FObj _ :: _ => Some (MObjKey, stk)
      | _, _ => close_step stk t
      end
  | MDone _ => None
  end.

Fixpoint parse_from (m : mode) (stk : list frame) (ts : list token) : option json :=
  match ts with
  | [] => match m with MDone v => Some v | _ => None end
  | t :: ts' =>
      match parse_step m stk t with
      | Some (m', stk') => parse_from m' stk' ts'
      | None => None
      end
  end.

(** [JSON.parse(text)]; [None] stands for the SyntaxError it throws. *)
Definition parse (text : jstring) : option json :=
  match lex text with
  | Some ts => parse_from MValue [] ts
  | None => None
  end.

End JSON.

(** ** Multiple-choice grading ([gradeMCQs], placement handler) *)

Record question := {
  q_id : jstring;
  q_type : jstring;
  q_answer : jsval
}.

Record detail := {
  d_id : jstring;
  d_expected : jsval;
  d_selected : jsval;
  d_isCorrect : bool
}.

Record grading := {
  correct : nat;
  total : nat;
  details : list detail
}.

(** [l.reduce(f, acc)] and [l.forEach] with the index passed along. *)
Fixpoint reduce_idx {A B : Type} (f : B -> A -> nat -> B) (l : list A) (idx : nat) (acc : B) : B :=
  match l with
  | [] => acc
  | x :: l' => reduce_idx f l' (S idx) (f acc x idx)
  end.

(** [answers.reduce((acc,item,idx) => { acc[idx] = item; return acc; }, {})] *)
Definition answersByIndex (answers : list json) : gmap nat json :=
  reduce_idx (fun acc item idx => <[idx := item]> acc) answers 0%nat ∅.

Definition is_mcq (q : question) : bool := str_eqb (q_type q) (u "mcq").

Definition grade_one (byIndex : gmap nat json) (acc : nat * list detail) (q : question) (idx : nat)
  : nat * list detail :=
  if is_mcq q then
    let selected := JS.opt_prop (byIndex !! idx) (u "selected") in
    let isCorrect := negb (JS.strict_eq selected None) && JS.strict_eq selected (q_answer q) in
    ((if isCorrect then S (fst acc) else fst acc),
     snd acc ++ [{| d_id := q_id q; d_expected := q_answer q;
                    d_selected := selected; d_isCorrect := isCorrect |}])
  else acc.

Definition gradeMCQs (questions : list question) (byIndex : gmap nat json) : grading :=
  let r := reduce_idx (grade_one byIndex) questions 0%nat (0%nat, []) in
  {| correct := fst r;
     total := length (List.filter is_mcq questions);
     details := snd r |}.

(** [Math.round((grading.correct / Math.max(grading.total,1)) * 100)] *)
Definition mcqPercent (g : grading) : float :=
  Num.Math_round (Num.of_nat (correct g) / Num.Math_max (Num.of_nat (total g)) 1 * 100)%float.

(** The questions the server holds. *)
Definition mcq (id answer : String.string) : question :=
  {| q_id := u id; q_type := u "mcq"; q_answer := Some (JStr (u answer)) |}.

Definition QUESTIONS : list question :=
  [ mcq "q1" "went";
    mcq "q2" "study";
    mcq "q3" "In a restaurant";
    mcq "q4" "He doesn't like pizza";
    mcq "q5" "Verb is incorrect";
    {| q_id := u "q6"; q_type := u "writing"; q_answer := Some JNull |};
    mcq "q7" "had arrived";
    mcq "q8" "The project will be finished next week";
    mcq "q9" "should have";
    mcq "q10" "He said he was busy";
    mcq "q11" "turn off" ].

(** ** The level map ([mapScoresToLevel]) *)

Inductive level : Type := A1 | A2 | B1 | B2 | C1 | C2.

Definition level_name (l : level) : jstring :=
  match l with
  | A1 => u "A1" | A2 => u "A2" | B1 => u "B1"
  | B2 => u "B2" | C1 => u "C1" | C2 => u "C2"
  end.

Record scores := {
  vocab : jsval;
  grammar : jsval;
  cohesion : jsval
}.

(** The chain of comparisons on [overall]. *)
Definition level_of (overall : float) : level :=
  if (overall <=? 20)%float then A1
  else if (overall <=? 35)%float then A2
  else if (overall <=? 55)%float then B1
  else if (overall <=? 75)%float then B2
  else if (overall <=? 90)%float then C1
  else C2.

(** [Number(x || 0)] *)
Definition score_number (h : host) (x : jsval) : float :=
  Coerce.Number_ h (JS.or x (Some (JNum 0))).

Definition mapScoresToLevel (h : host) (s : scores) : level * float :=
  let vocab := score_number h (vocab s) in
  let grammar := score_number h (grammar s) in
  let cohesion := score_number h (cohesion s) in
  let overall := (0.4 * vocab + 0.4 * grammar + 0.2 * cohesion)%float in
  (level_of overall, overall).

(** ** Dates and the streak *)

Definition ms_per_day : Z := 1000 * 60 * 60 * 24.

(** What [lastAssessmentDateISO] can hold when it is a non-empty string.
    Days are counted from 1970-01-01 (UTC) and instants in milliseconds from
    its midnight; days are those whose ISO form has a four-digit year. *)
Inductive stored_date : Type :=
| DateISO (day : Z)     (* the ten characters YYYY-MM-DD of a day, as the handlers write it *)
| DateOther (t : Z)     (* another string that [new Date] reads, as the instant [t] *)
| DateInvalid.          (* a string that [new Date] cannot read *)

(** [new Date(s).toISOString().slice(0,10)], as a day. *)
Definition iso_day (d : stored_date) : res Z :=
  match d with
  | DateISO day => Ok day
  | DateOther t => Ok (t / ms_per_day)
  | DateInvalid => Throw RangeError
  end.

(** [new Date(dayString)] as an instant: midnight UTC of the day. *)
Definition day_instant (day : Z) : Z := day * ms_per_day.

(** [Math.round(a / b)] for integers [a] and [b > 0].  The instants here are
    multiples of [ms_per_day] below 2^53 in size, so the program's
    floating-point subtraction and division are exact. *)
Definition round_div (a b : Z) : Z := (2 * a + b) / (2 * b).

(** [new Date().toISOString().slice(0,10)], as a day. *)
Definition today_of (now : Z) : Z := now / ms_per_day.

Record streak_result := {
  sr_streak : float;
  sr_todayISO : Z;
  sr_updated : bool
}.

(** [p || d] on numbers. *)
Definition num_or (p d : float) : float := if Num.falsy p then d else p.

(** [computeNewStreak(prevISO, prevStreak = 0)] of the writing handler (the
    speaking handler has the same function inline, without [updated]). *)
Definition computeNewStreak (now : Z) (prevISO : option stored_date) (prevStreak : option float)
  : streak_result :=
  let prevStreak := default 0%float prevStreak in
  let todayISO := today_of now in
  match prevISO with
  | None => {| sr_streak := 1; sr_todayISO := todayISO; sr_updated := true |}
  | Some prev =>
      match iso_day prev with
      | Ok prevDayStr =>
          let prevDate := day_instant prevDayStr in
          let tDate := day_instant todayISO in
          let diffDays := round_div (tDate - prevDate) ms_per_day in
          if diffDays =? 0 then
            {| sr_streak := num_or prevStreak 1; sr_todayISO := todayISO; sr_updated := false |}
          else if diffDays =? 1 then
            {| sr_streak := (num_or prevStreak 0 + 1)%float; sr_todayISO := todayISO;
               sr_updated := true |}
          else {| sr_streak := 1; sr_todayISO := todayISO; sr_updated := true |}
      | Throw _ => {| sr_streak := 1; sr_todayISO := todayISO; sr_updated := true |}
      end
  end.

(** [userData.lastAssessmentDateISO === todayISO] *)
Definition is_today_string (prev : option stored_date) (todayISO : Z) : bool :=
  match prev with
  | Some (DateISO d) => d =? todayISO
  | _ => false
  end.

(** The streak computation written out in the placement handler. *)
Definition inline_streak (todayISO : Z) (prev : option stored_date) (stored : option float)
  : res float :=
  let streak := num_or (default 0%float stored) 0 in
  if is_today_string prev todayISO then Ok streak
  else
    match prev with
    | Some p =>
        d ← iso_day p;
        let diff := round_div (day_instant todayISO - day_instant d) ms_per_day in
        if diff =? 1 then Ok (num_or streak 0 + 1)%float else Ok 1%float
    | None => Ok 1%float
    end.

(** The four badge lines of the placement handler. *)
Definition includes (b : jstring) (l : list jstring) : bool := existsb (str_eqb b) l.

Definition award (streak threshold : float) (badge : jstring) (avatars : list jstring)
  : list jstring :=
  if (threshold <=? streak)%float && negb (includes badge avatars)
  then avatars ++ [badge] else avatars.

Definition award_badges (streak : float) (currentAvatars : list jstring) : list jstring :=
  award streak 30 (u "gold")
    (award streak 14 (u "silver")
       (award streak 7 (u "bronze")
          (award streak 3 (u "starter") currentAvatars))).

(** ** The model's reply *)

(** [String(j?.candidates?.[0]?.content || j?.content || JSON.stringify(j))] *)
Definition candidate_text (h : host) (j : json) : jstring :=
  let c1 := JS.opt_prop (JS.opt_first (JS.opt_prop (Some j) (u "candidates"))) (u "content") in
  let c2 := JS.opt_prop (Some j) (u "content") in
  match (if JS.truthy c1 then c1 else if JS.truthy c2 then c2 else None) with
  | Some v => Coerce.String_ h v
  | None => JSON_stringify h j
  end.

(** What is done with a cleaned reply that neither parses as it is nor holds
    a parsable brace span. *)
Inductive fallback : Type :=
| WrapRaw       (* the writing and speaking handlers: the object { raw } *)
| GiveUp.       (* callGeminiEvaluate: throw *)

(** The parse with its fallback, on the cleaned text:
    [try { JSON.parse(raw) } catch { m = raw.match(...); m ? JSON.parse(m[0]) : ... }] *)
Definition parse_reply (fb : fallback) (raw : jstring) : res json :=
  match JSON.parse raw with
  | Some parsed => Ok parsed
  | None =>
      match Str.match_object raw with
      | Some m =>
          match JSON.parse m with
          | Some parsed => Ok parsed
          | None => Throw SyntaxError
          end
      | None =>
          match fb with
          | WrapRaw => Ok (JObj [(u "raw", JStr raw)])
          | GiveUp => Throw (Error (u "Gemini returned unparsable JSON"))
          end
      end
  end.

(** From the model's text to the object: clean, then parse. *)
Definition normalize (fb : fallback) (text : jstring) : res json :=
  parse_reply fb (Str.clean text).

(** ** The providers and the document store *)

(** What [fetch] gives back. *)
Inductive reply : Type :=
| NoReply                                 (* the promise rejects *)
| Reply (status : N) (body : jstring).

(** [r.ok] *)
Definition http_ok (status : N) : bool := ((200 <=? status) && (status <=? 299))%N.

(** [await r.json()] *)
Definition body_json (body : jstring) : res json :=
  match JSON.parse body with
  | Some j => Ok j
  | None => Throw SyntaxError
  end.

(** A user's document, with the fields this pipeline owns; each holds what
    the handlers write there or is absent. *)
Record userdoc := {
  level_ : option json;
  levelConfidence : option json;
  lastAssessmentAt : option Z;
  lastAssessmentDateISO : option stored_date;
  streak : option float;
  avatars : option (list jstring)
}.

(** [{}], the data of a user without a document. *)
Definition no_data : userdoc :=
  {| level_ := None; levelConfidence := None; lastAssessmentAt := None;
     lastAssessmentDateISO := None; streak := None; avatars := None |}.

Record placement_result := {
  r_level : level;
  r_confidence : float;
  r_scores : scores;
  r_explanation : json;
  r_mcq : list detail;
  r_geminiRaw : json
}.

Inductive outcome : Type :=
| OParsed (parsed : json)
| OPlacement (r : placement_result).

Inductive input : Type :=
| IWriting (textSample : json)
| ISpeaking (transcript : jsval)
| IPlacement (claimedLevel : jsval) (answers : list json).

(** A document of the [assessments] collection of a user. *)
Record entry := {
  e_type : jstring;
  e_input : input;
  e_result : outcome;
  e_createdAt : Z
}.

Record store := {
  users : gmap jstring userdoc;
  assessments : list (jstring * entry)     (* in the order they were added *)
}.

Record env := {
  now : Z;                          (* the clock, in milliseconds *)
  gemini_key : bool;                (* GEMINI_API_KEY is set *)
  gemini : reply;                   (* the model's answer to generateText *)
  fs_ok : bool;                     (* the uploaded file can be read *)
  upload : reply;                   (* the transcription provider's answer to /upload *)
  transcript_job : reply;           (* ... to POST /transcript *)
  transcript_status : nat -> reply; (* ... to the n-th GET /transcript/id *)
  db_get_ok : bool;                 (* the store accepts the read *)
  db_set_ok : bool;                 (* ... the merge *)
  db_add_ok : bool                  (* ... the append *)
}.

(** Code that touches the store: the state is threaded, an exception keeps
    the writes made before it. *)
Definition io (A : Type) : Type := store -> res A * store.

#[global] Instance io_ret : MRet io := fun _ a st => (Ok a, st).
#[global] Instance io_bind : MBind io :=
  fun _ _ f m st =>
    match m st with
    | (Ok a, st') => f a st'
    | (Throw e, st') => (Throw e, st')
    end.

Definition lift {A} (r : res A) : io A := fun st => (r, st).

(** [usnap.exists ? usnap.data() : {}] after [await userRef.get()]. *)
Definition db_get (e : env) (uid : jstring) : io userdoc :=
  fun st =>
    if db_get_ok e then (Ok (default no_data (users st !! uid)), st)
    else (Throw DbError, st).

(** [await userRef.set(fields, { merge: true })]; [write] overwrites the
    fields that are set and keeps the others. *)
Definition db_set (e : env) (uid : jstring) (write : userdoc -> userdoc) : io unit :=
  fun st =>
    if db_set_ok e
    then (Ok tt, {| users := <[uid := write (default no_data (users st !! uid))]> (users st);
                    assessments := assessments st |})
    else (Throw DbError, st).

(** [await userRef.collection("assessments").add(entry)] *)
Definition db_add (e : env) (uid : jstring) (x : entry) : io unit :=
  fun st =>
    if db_add_ok e
    then (Ok tt, {| users := users st; assessments := assessments st ++ [(uid, x)] |})
    else (Throw DbError, st).

(** Document paths, as the client of the store reads them.  The segments
    of a path are the pieces between its slashes that are not empty:
    [path.split('/').filter(segment => segment.length > 0)]; [cur] is the
    piece being read, reversed. *)
Definition slash : N := 47.

Fixpoint split_path (cur : jstring) (path : jstring) : list jstring :=
  match path with
  | [] => match cur with [] => [] | _ => [rev cur] end
  | c :: path' =>
      if (c =? slash)%N
      then match cur with [] => split_path [] path' | _ => rev cur :: split_path [] path' end
      else split_path (c :: cur) path'
  end.

Definition path_segments (path : jstring) : list jstring := split_path [] path.

(** [segments.join('/')] *)
Fixpoint join_path (segs : list jstring) : jstring :=
  match segs with
  | [] => []
  | [x] => x
  | x :: rest => x ++ slash :: join_path rest
  end.

(** [path.indexOf('//') >= 0] *)
Fixpoint has_double_slash (path : jstring) : bool :=
  match path with
  | a :: path' =>
      match path' with
      | b :: _ => ((a =? slash) && (b =? slash))%N || has_double_slash path'
      | [] => false
      end
  | [] => false
  end.

(** [db.collection("users").doc(uid)].  The client refuses, before any call
    of the store, an id that is not a non-empty string, an id with two
    slashes in a row, and an id that does not name a document: with the
    collection in front the path must have an even number of segments, so
    the id must have an odd number of them.  Slashes at either end are
    allowed and dropped.  The result is the path of the document below
    [users]; for an id without a slash that is the id. *)
Definition doc_ref (uid : option jstring) : res jstring :=
  match uid with
  | Some (c :: id) =>
      if has_double_slash (c :: id) then Throw DbError
      else if Nat.odd (length (path_segments (c :: id)))
           then Ok (join_path (path_segments (c :: id)))
           else Throw DbError
  | _ => Throw DbError
  end.

Inductive content : Type :=
| CError (e : exn)                                (* { ok: false, error } *)
| CGeminiError (status : N) (body : jstring)      (* { ok: false, error: "Gemini error", status, body } *)
| CResult (o : outcome).                          (* { ok: true, result } *)

Record response := {
  status : N;
  sent : content
}.

(** The [catch] around a handler's body. *)
Definition respond (body : io response) : store -> response * store :=
  fun st =>
    match body st with
    | (Ok r, st') => (r, st')
    | (Throw e, st') => ({| status := 500; sent := CError e |}, st')
    end.

Definition method_not_allowed : response :=
  {| status := 405; sent := CError (Error (u "Method not allowed")) |}.

Definition bad_request (msg : String.string) : response :=
  {| status := 400; sent := CError (Error (u msg)) |}.

(** The fields the writing and speaking handlers merge into the user's document. *)
Definition write_progress (parsed : json) (at_ : Z) (todayISO : Z) (new_streak : float)
  (d : userdoc) : userdoc :=
  {| level_ := JS.or (JS.get parsed (u "level")) (Some (JStr (u "Unknown")));
     levelConfidence := JS.nullish (JS.get parsed (u "confidence")) (Some (JNum 0));
     lastAssessmentAt := Some at_;
     lastAssessmentDateISO := Some (DateISO todayISO);
     streak := Some new_streak;
     avatars := avatars d |}.

(** ** The writing handler *)

Record writing_req := {
  w_method : jstring;
  w_textSample : jsval;
  w_uid : option jstring
}.

Definition is_post (m : jstring) : bool := str_eqb m (u "POST").

Definition uid_truthy (uid : option jstring) : bool :=
  match uid with Some (_ :: _) => true | _ => false end.

(** The part of the two handlers after the reply is parsed: read the user,
    advance the streak, merge the progress, append the history entry. *)
Definition save_assessment (e : env) (uid : option jstring) (kind : String.string)
  (inp : input) (parsed : json) : io response :=
  id ← lift (doc_ref uid);
  userData ← db_get e id;
  let s := computeNewStreak (now e) (lastAssessmentDateISO userData) (streak userData) in
  (* parsed.level throws when parsed is null *)
  _ ← lift (JS.prop (Some parsed) (u "level"));
  _ ← db_set e id (write_progress parsed (now e) (sr_todayISO s) (sr_streak s));
  _ ← db_add e id {| e_type := u kind; e_input := inp; e_result := OParsed parsed;
                     e_createdAt := now e |};
  mret {| status := 200; sent := CResult (OParsed parsed) |}.

Definition writing_body (h : host) (e : env) (req : writing_req) : io response :=
  if negb (is_post (w_method req)) then mret method_not_allowed
  else
    match w_textSample req with
    | Some textSample =>
        if negb (JS.truthy (Some textSample)) || negb (uid_truthy (w_uid req))
        then mret (bad_request "textSample & uid required")
        else
          match gemini e with
          | NoReply => lift (Throw FetchError)
          | Reply st body =>
              if negb (http_ok st)
              then mret {| status := 502; sent := CGeminiError st body |}
              else
                apiJson ← lift (body_json body);
                parsed ← lift (normalize WrapRaw (candidate_text h apiJson));
                save_assessment e (w_uid req) "writing" (IWriting textSample) parsed
          end
    | None => mret (bad_request "textSample & uid required")
    end.

Definition handler_writing (h : host) (e : env) (req : writing_req)
  : store -> response * store :=
  respond (writing_body h e req).

(** ** The speaking handler *)

(** The number [n] in a template string or a string concatenation. *)
Definition decimal_N (n : N) : jstring := u (NilZero.string_of_uint (N.to_uint n)).
Definition decimal_nat (n : nat) : jstring := u (NilZero.string_of_uint (Nat.to_uint n)).

(** What the poll loop does to the outside. *)
Variant pollE : Type -> Type :=
| Sleep (ms : Z) : pollE unit              (* await new Promise(r => setTimeout(r, ms)) *)
| GetStatus (id : jsval) : pollE reply.    (* await fetch(".../v2/transcript/" + id) *)

(** One turn of the loop after the fetch: [inl tt] goes round again, [inr]
    leaves the loop with the text or with an exception. *)
Definition poll_decide (h : host) (r : reply) : unit + res jsval :=
  match r with
  | NoReply => inr (Throw FetchError)
  | Reply _ body =>
      match body_json body with
      | Throw ex => inr (Throw ex)
      | Ok j =>
          match JS.prop (Some j) (u "status") with
          | Throw ex => inr (Throw ex)
          | Ok st =>
              if JS.strict_eq st (Some (JStr (u "completed"))) then inr (Ok (JS.get j (u "text")))
              else if JS.strict_eq st (Some (JStr (u "error"))) then
                inr (Throw (Error (u "Transcription error: " ++
                  match JS.or (JS.get j (u "error")) (Some (JStr (u "unknown"))) with
                  | Some d => Coerce.String_ h d
                  | None => u "unknown"
                  end)))
              else inl tt
          end
      end
  end.

Definition poll_turn (h : host) (id : jsval) : itree pollE (unit + res jsval) :=
  ITree.bind (ITree.trigger (Sleep 3000))
    (fun _ => ITree.bind (ITree.trigger (GetStatus id))
       (fun r => Ret (poll_decide h r))).

(** [while (true) { ... }] *)
Definition pollTranscript (h : host) (id : jsval) : itree pollE (res jsval) :=
  ITree.iter (fun _ : unit => poll_turn h id) tt.

Inductive poll_event : Type :=
| Waited (ms : Z)
| Asked (id : jsval).

(** Run a tree against the provider's answers for [fuel] steps; [asked]
    counts the status requests made so far, [trace] records the events. *)
Fixpoint run_poll {R : Type} (answers : nat -> reply) (fuel : nat) (t : itree pollE R)
  (asked : nat) (trace : list poll_event) : option (R * list poll_event) :=
  match fuel with
  | O => None
  | S fuel' =>
      match observe t with
      | RetF r => Some (r, trace)
      | TauF t' => run_poll answers fuel' t' asked trace
      | VisF ev k =>
          match ev in pollE T return (T -> itree pollE R) -> option (R * list poll_event) with
          | Sleep ms => fun k => run_poll answers fuel' (k tt) asked (trace ++ [Waited ms])
          | GetStatus id =>
              fun k => run_poll answers fuel' (k (answers asked)) (S asked) (trace ++ [Asked id])
          end k
      end
  end.

Record speaking_req := {
  s_method : jstring;
  s_form_ok : bool;               (* the multipart form could be parsed *)
  s_uid : option jstring;         (* fields.uid *)
  s_file : bool                   (* files.file is there *)
}.

Definition uploadToAssembly (e : env) : res jsval :=
  if negb (fs_ok e) then Throw (Error (u "cannot read the file"))
  else
    match upload e with
    | NoReply => Throw FetchError
    | Reply _ body => j ← body_json body; JS.prop (Some j) (u "upload_url")
    end.

Definition createTranscription (e : env) (uploadUrl : jsval) : res jsval :=
  match transcript_job e with
  | NoReply => Throw FetchError
  | Reply _ body => j ← body_json body; JS.prop (Some j) (u "id")
  end.

Definition callGemini (h : host) (e : env) : res json :=
  match gemini e with
  | NoReply => Throw FetchError
  | Reply st body =>
      if negb (http_ok st) then Throw (Error (u "Gemini error " ++ decimal_N st))
      else j ← body_json body; normalize WrapRaw (candidate_text h j)
  end.

(** [None]: the poll loop has not ended within [fuel] steps. *)
Definition speaking_body (h : host) (e : env) (req : speaking_req) (fuel : nat)
  : option (io response) :=
  if negb (is_post (s_method req)) then Some (mret method_not_allowed)
  else if negb (s_form_ok req) then Some (lift (Throw (Error (u "cannot parse the form"))))
  else if negb (s_file req) then Some (mret (bad_request "file required"))
  else
    match uploadToAssembly e with
    | Throw ex => Some (lift (Throw ex))
    | Ok uploadUrl =>
        match createTranscription e uploadUrl with
        | Throw ex => Some (lift (Throw ex))
        | Ok transcriptId =>
            match run_poll (transcript_status e) fuel (pollTranscript h transcriptId) 0 [] with
            | None => None
            | Some (polled, _) =>
                Some (transcriptText ← lift polled;
                      parsed ← lift (callGemini h e);
                      save_assessment e (s_uid req) "speaking" (ISpeaking transcriptText) parsed)
            end
        end
    end.

Definition handler_speaking (h : host) (e : env) (req : speaking_req) (fuel : nat) (st : store)
  : option (response * store) :=
  match speaking_body h e req fuel with
  | Some body => Some (respond body st)
  | None => None
  end.

(** ** The placement handler *)

Record placement_req := {
  p_method : jstring;
  p_uid : option jstring;
  p_claimedLevel : jsval;
  p_answers : jsval
}.

(** [answers.find(a => a.type === "writing" && a.writingSample &&
    a.writingSample.trim().length >= 20)] *)
Fixpoint find_writing (answers : list json) : res (option (json * jstring)) :=
  match answers with
  | [] => Ok None
  | a :: rest =>
      ty ← JS.prop (Some a) (u "type");
      if JS.strict_eq ty (Some (JStr (u "writing"))) then
        let ws := JS.get a (u "writingSample") in
        if JS.truthy ws then
          match ws with
          | Some (JStr s) =>
              if (20 <=? length (Str.trim s))%nat then Ok (Some (a, s)) else find_writing rest
          | _ => Throw TypeError       (* trim is not a function *)
          end
        else find_writing rest
      else find_writing rest
  end.

(** [callGeminiEvaluate(text)]; [Ok None] is [{ ok: false }]. *)
Definition callGeminiEvaluate (h : host) (e : env) (text : jstring) : res (option json) :=
  if negb (gemini_key e) then Ok None
  else
    match gemini e with
    | NoReply => Throw FetchError
    | Reply st body =>
        if negb (http_ok st)
        then Throw (Error (u "Gemini error " ++ decimal_N st ++ u ": " ++ body))
        else
          j ← body_json body;
          parsed ← normalize GiveUp (candidate_text h j);
          Ok (Some parsed)
    end.

(** [geminiParsed] after the guarded call. *)
Definition evaluate_writing (h : host) (e : env) (writingEntry : option (json * jstring)) : json :=
  match writingEntry with
  | Some (_, sample) =>
      match callGeminiEvaluate h e sample with
      | Ok (Some parsed) => parsed
      | Ok None => JNull
      | Throw _ => JNull
      end
  | None => JNull
  end.

(** [geminiParsed?.scores?.k ?? mcqPercent] *)
Definition merged_score (geminiParsed : json) (k : String.string) (percent : float) : jsval :=
  JS.nullish (JS.opt_prop (JS.opt_prop (Some geminiParsed) (u "scores")) (u k))
             (Some (JNum percent)).

Definition placement_result_of (h : host) (g : grading) (geminiParsed : json) : placement_result :=
  let percent := mcqPercent g in
  let scores := {| vocab := merged_score geminiParsed "vocab" percent;
                   grammar := merged_score geminiParsed "grammar" percent;
                   cohesion := merged_score geminiParsed "cohesion" percent |} in
  let mapping := mapScoresToLevel h scores in
  let finalConfidence :=
    JS.nullish (JS.opt_prop (Some geminiParsed) (u "confidence"))
               (Some (JNum (percent / 100)%float)) in
  {| r_level := fst mapping;
     r_confidence := num_or (Coerce.Number_ h finalConfidence) 0;
     r_scores := scores;
     r_explanation :=
       default JNull
         (JS.or (JS.opt_prop (Some geminiParsed) (u "analysis"))
                (Some (JStr (u "MCQ accuracy " ++ decimal_nat (correct g) ++ u "/"
                             ++ decimal_nat (total g)))));
     r_mcq := details g;
     r_geminiRaw := geminiParsed |}.

(** The fields the placement handler merges into the user's document. *)
Definition write_placement (r : placement_result) (at_ : Z) (todayISO : Z) (new_streak : float)
  (new_avatars : list jstring) (d : userdoc) : userdoc :=
  {| level_ := Some (JStr (level_name (r_level r)));
     levelConfidence := Some (JNum (r_confidence r));
     lastAssessmentAt := Some at_;
     lastAssessmentDateISO := Some (DateISO todayISO);
     streak := Some new_streak;
     avatars := Some new_avatars |}.

Definition save_placement (e : env) (req : placement_req) (answers : list json)
  (r : placement_result) : io unit :=
  match p_uid req with
  | Some (c :: id) =>
      uid ← lift (doc_ref (Some (c :: id)));
      userData ← db_get e uid;
      let todayISO := today_of (now e) in
      new_streak ← lift (inline_streak todayISO (lastAssessmentDateISO userData) (streak userData));
      let currentAvatars := award_badges new_streak (default [] (avatars userData)) in
      _ ← db_set e uid (write_placement r (now e) todayISO new_streak currentAvatars);
      db_add e uid {| e_type := u "placement";
                      e_input := IPlacement (p_claimedLevel req) answers;
                      e_result := OPlacement r;
                      e_createdAt := now e |}
  | _ => mret tt
  end.

Definition placement_body (h : host) (e : env) (req : placement_req) : io response :=
  if negb (is_post (p_method req)) then mret method_not_allowed
  else
    match p_answers req with
    | Some (JArr answers) =>
        let grading := gradeMCQs QUESTIONS (answersByIndex answers) in
        writingEntry ← lift (find_writing answers);
        let geminiParsed := evaluate_writing h e writingEntry in
        let result := placement_result_of h grading geminiParsed in
        _ ← save_placement e req answers result;
        mret {| status := 200; sent := CResult (OPlacement result) |}
    | _ => mret (bad_request "answers required")
    end.

Definition handler_placement (h : host) (e : env) (req : placement_req)
  : store -> response * store :=
  respond (placement_body h e req).

(** ** Notions the properties are stated with *)

(** A number other than [NaN] and [-0]. *)
Definition plain (x : float) : Prop := is_nan x = false /\ x <> neg_zero.


(** The threshold table of the level map as the specification words it:
    inclusive upper bounds in ascending order, the first match wins. *)
Definition thresholds : list (float * level) :=
  [ (20, A1); (35, A2); (55, B1); (75, B2); (90, C1) ]%float.

Fixpoint first_match (table : list (float * level)) (otherwise : level) (overall : float) : level :=
  match table with
  | [] => otherwise
  | (bound, l) :: table' =>
      if (overall <=? bound)%float then l else first_match table' otherwise overall
  end.

Definition numeric_scores (v g c : float) : scores :=
  {| vocab := Some (JNum v); grammar := Some (JNum g); cohesion := Some (JNum c) |}.

(** A previous streak that is a count: absent, or a number that is not [NaN]. *)
Definition is_count (prevStreak : option float) : Prop :=
  match prevStreak with
  | Some p => is_nan p = false
  | None => True
  end.

(** The previous streak with "absent" read as zero. *)
Definition count_of (prevStreak : option float) : float := default 0%float prevStreak.

Fixpoint indexed_from {A : Type} (i : nat) (l : list A) : list (nat * A) :=
  match l with
  | [] => []
  | x :: l' => (i, x) :: indexed_from (S i) l'
  end.

(** The question at position [idx] is answered correctly: a selection was
    supplied at that position and it is strictly equal to the answer held by
    the server. *)
Definition answered_correctly (answers : list json) (idx : nat) (q : question) : bool :=
  match JS.opt_prop (answers !! idx) (u "selected") with
  | Some selected => JS.strict_eq (Some selected) (q_answer q)
  | None => false
  end.

Definition graded (qs : list question) : list (nat * question) :=
  List.filter (fun iq => is_mcq (snd iq)) (indexed_from 0 qs).

Definition detail_of (answers : list json) (iq : nat * question) : detail :=
  {| d_id := q_id (snd iq);
     d_expected := q_answer (snd iq);
     d_selected := JS.opt_prop (answers !! fst iq) (u "selected");
     d_isCorrect := answered_correctly answers (fst iq) (snd iq) |}.

(** [pat] occurs somewhere in [s]. *)
Fixpoint contains (ci : bool) (pat s : jstring) : bool :=
  Str.starts_with ci pat s
  || match s with
     | [] => false
     | _ :: s' => contains ci pat s'
     end.

(** The text of a JSON object between its braces is [mid]. *)
Definition braced (mid : jstring) : jstring := Str.lbrace :: mid ++ [Str.rbrace].

(** The two replacements of [clean], before the trim. *)
Definition strip (s : jstring) : jstring :=
  Str.remove_all false Str.fence (Str.remove_all true Str.fence_json s).

(** The model was asked about [sample] and gave nothing to use. *)
Definition evaluation_failed (h : host) (e : env) (sample : jstring) : Prop :=
  match callGeminiEvaluate h e sample with
  | Ok (Some _) => False
  | Ok None | Throw _ => True
  end.






(** What one turn of the loop does to the outside. *)
Definition turn_trace (id : jsval) : list poll_event := [Waited 3000; Asked id].


(** The badges a user holds in a store. *)
Definition badges (st : store) (id : jstring) : list jstring :=
  default [] (users st !! id ≫= avatars).

(** The model's answer arrived and was read as [parsed]. *)
Definition model_rated (h : host) (e : env) (parsed : json) : Prop :=
  exists st body apiJson,
    gemini e = Reply st body /\ http_ok st = true /\ body_json body = Ok apiJson
    /\ normalize WrapRaw (candidate_text h apiJson) = Ok parsed.



(** The model's HTTP call fails: no answer, or an answer with an error status. *)
Definition model_unavailable (e : env) : Prop :=
  match gemini e with
  | NoReply => True
  | Reply st _ => http_ok st = false
  end.


Definition valid_speaking (req : speaking_req) : Prop :=
  is_post (s_method req) = true /\ s_form_ok req = true /\ s_file req = true.


(** ** Sample inputs, for the examples *)

Module Sample.

Definition host0 : host :=
  {| ToString := fun _ => u "[object Object]";
     ToNumber := fun _ => nan;
     JSON_stringify := fun _ => u "{}" |}.

(** 2023-11-14 22:13:20 UTC, on day 19675. *)
Definition clock : Z := 1700000000000.

Definition array_of (text : jstring) : list json :=
  match JSON.parse text with
  | Some (JArr l) => l
  | _ => []
  end.

(** The model rates the sample as the mock of the repository does. *)
Definition rating : jstring :=
  uq "{'level':'B1','confidence':0.76,'scores':{'vocab':72,'grammar':68,'cohesion':70}}".

Definition rated : json :=
  Eval vm_compute in default JNull (JSON.parse rating).


(** [text] as the contents of a JSON string literal. *)
Definition escaped (text : jstring) : jstring :=
  concat (List.map (fun c => if ((c =? 34) || (c =? 92))%N then [92%N; c] else [c]) text).

Definition model_says (text : jstring) : reply :=
  Reply 200 (uq "{'candidates':[{'content':'" ++ escaped text ++ uq "'}]}").

Definition job_status (n : nat) : reply :=
  match n with
  | 0%nat => Reply 200 (uq "{'status':'queued'}")
  | 1%nat => Reply 200 (uq "{'status':'processing'}")
  | _ => Reply 200 (uq "{'status':'completed','text':'I like tea.'}")
  end.

Definition env_with (g : reply) : env :=
  {| now := clock; gemini_key := true; gemini := g; fs_ok := true;
     upload := Reply 200 (uq "{'upload_url':'https://cdn.example/a'}");
     transcript_job := Reply 200 (uq "{'id':'job1'}");
     transcript_status := job_status;
     db_get_ok := true; db_set_ok := true; db_add_ok := true |}.

Definition nobody : store := {| users := ∅; assessments := [] |}.

Definition uid : jstring := u "u1".

(** A user who was assessed the day before, with a streak of two and no badge. *)
Definition regular : store :=
  {| users := {[ uid := {| level_ := Some (JStr (u "A2")); levelConfidence := Some (JNum 0.5);
                           lastAssessmentAt := Some (clock - ms_per_day);
                           lastAssessmentDateISO := Some (DateISO 19674);
                           streak := Some 2%float; avatars := Some [] |} ]};
     assessments := [] |}.

Definition writing : writing_req :=
  {| w_method := u "POST";
     w_textSample := Some (JStr (u "I have lived in Lima for ten years."));
     w_uid := Some uid |}.

Definition speaking : speaking_req :=
  {| s_method := u "POST"; s_form_ok := true; s_uid := Some uid; s_file := true |}.

(** Three right answers, one wrong, one free text, the rest missing. *)
Definition answers : list json :=
  Eval vm_compute in
    array_of (uq "[{'selected':'went'},{'selected':'study'},{'selected':'In a restaurant'},{'selected':'He likes pizza'},{},{'type':'writing','writingSample':'I have lived in Lima for ten years.'}]").

Definition placement : placement_req :=
  {| p_method := u "POST"; p_uid := Some uid; p_claimedLevel := Some (JStr (u "B1"));
     p_answers := Some (JArr answers) |}.

End Sample.

(** ** More notions, for the properties of the handlers *)

(** The level a placement gets from the number of right answers alone. *)
Definition level_by_count (c : nat) : level :=
  match c with
  | 0 | 1 | 2 => A1
  | 3 => A2
  | 4 | 5 => B1
  | 6 | 7 => B2
  | 8 | 9 => C1
  | _ => C2
  end%nat.

(** The levels in ascending order. *)
Definition level_rank (l : level) : nat :=
  match l with A1 => 0 | A2 => 1 | B1 => 2 | B2 => 3 | C1 => 4 | C2 => 5 end%nat.


(** The store after a merge into the document of [uid], and after an entry
    is appended to the history. *)
Definition merged (uid : jstring) (write : userdoc -> userdoc) (st : store) : store :=
  {| users := <[uid := write (default no_data (users st !! uid))]> (users st);
     assessments := assessments st |}.

Definition appended (uid : jstring) (x : entry) (st : store) : store :=
  {| users := users st; assessments := assessments st ++ [(uid, x)] |}.

(** The store after the writing or speaking handler has merged the progress
    of the user [id]. *)
Definition assessed (e : env) (id : jstring) (parsed : json) (st : store) : store :=
  let d := default no_data (users st !! id) in
  let s := computeNewStreak (now e) (lastAssessmentDateISO d) (streak d) in
  merged id (write_progress parsed (now e) (sr_todayISO s) (sr_streak s)) st.

Definition history_entry (e : env) (kind : String.string) (inp : input) (o : outcome) : entry :=
  {| e_type := u kind; e_input := inp; e_result := o; e_createdAt := now e |}.

(** The store after the placement handler has merged the progress of [id],
    with the streak [new_streak]. *)
Definition placed (e : env) (id : jstring) (r : placement_result) (new_streak : float)
  (st : store) : store :=
  let d := default no_data (users st !! id) in
  merged id (write_placement r (now e) (today_of (now e)) new_streak
               (award_badges new_streak (default [] (avatars d)))) st.

(** The document that the user id of a request names, if it names one. *)
Definition doc_key (uid : option jstring) : option jstring :=
  match doc_ref uid with
  | Ok id => Some id
  | Throw _ => None
  end.

(** What a request may do to the store: the documents other than [doc] stay
    as they are, and the history grows by at most one entry, filed under
    [doc]. *)
Definition touches_only (doc : option jstring) (st st' : store) : Prop :=
  (forall id, Some id <> doc -> users st' !! id = users st !! id)
  /\ exists added, assessments st' = assessments st ++ added
                   /\ (length added <= 1)%nat
                   /\ forall x, In x added -> Some (fst x) = doc.

(** Every stored date has the form the handlers write. *)
Definition canonical_dates (st : store) : Prop :=
  forall id d, users st !! id = Some d ->
    match lastAssessmentDateISO d with
    | Some (DateISO _) | None => True
    | Some _ => False
    end.


(** The number of backquotes a text starts with. *)
Fixpoint leading_ticks (s : jstring) : nat :=
  match s with
  | c :: s' => if (c =? 96)%N then S (leading_ticks s') else 0%nat
  | [] => 0%nat
  end.

(** Two answers of a provider that differ at most in the HTTP status. *)
Definition same_body (r r' : reply) : Prop :=
  match r, r' with
  | NoReply, NoReply => True
  | Reply _ b, Reply _ b' => b = b'
  | _, _ => False
  end.

(** Two environments that differ at most in the HTTP statuses of the
    transcription provider's answers. *)
Definition same_but_statuses (e e' : env) : Prop :=
  now e = now e' /\ gemini e = gemini e' /\ fs_ok e = fs_ok e'
  /\ db_get_ok e = db_get_ok e' /\ db_set_ok e = db_set_ok e' /\ db_add_ok e = db_add_ok e'
  /\ same_body (upload e) (upload e')
  /\ same_body (transcript_job e) (transcript_job e')
  /\ forall n, same_body (transcript_status e n) (transcript_status e' n).


(** More sample inputs. *)
Module Cases.


(** The store refuses the merge. *)
Definition merge_refused : env :=
  {| now := Sample.clock; gemini_key := true; gemini := Sample.model_says Sample.rating;
     fs_ok := true;
     upload := Reply 200 (uq "{'upload_url':'https://cdn.example/a'}");
     transcript_job := Reply 200 (uq "{'id':'job1'}");
     transcript_status := Sample.job_status;
     db_get_ok := true; db_set_ok := false; db_add_ok := true |}.



(** The answers of [Sample.env_with], all sent with the status 500. *)
Definition all_500 (g : reply) : env :=
  {| now := Sample.clock; gemini_key := true; gemini := g; fs_ok := true;
     upload := Reply 500 (uq "{'upload_url':'https://cdn.example/a'}");
     transcript_job := Reply 500 (uq "{'id':'job1'}");
     transcript_status := fun n =>
       match Sample.job_status n with
       | Reply _ b => Reply 500 b
       | NoReply => NoReply
       end;
     db_get_ok := true; db_set_ok := true; db_add_ok := true |}.

(** A speaking request without a user id. *)
Definition nameless : speaking_req :=
  {| s_method := u "POST"; s_form_ok := true; s_uid := None; s_file := true |}.

(** A user who holds the first badge. *)
Definition veteran : store :=
  {| users := {[ Sample.uid := {| level_ := Some (JStr (u "B1"));
                                  levelConfidence := Some (JNum 0.7);
                                  lastAssessmentAt := Some (Sample.clock - ms_per_day);
                                  lastAssessmentDateISO := Some (DateISO 19674);
                                  streak := Some 4%float;
                                  avatars := Some [u "starter"] |} ]};
     assessments := [] |}.

End Cases.

(** * Properties *)

(** Open the binds of code that touches the store. *)
Ltac unfold_io := unfold mbind, io_bind, lift.

(** ** Numbers *)

Lemma is_zero_cases (x : float) : is_zero x = true -> x = zero \/ x = neg_zero.
Proof.
  unfold is_zero. rewrite FloatAxioms.eqb_spec.
  change (Prim2SF zero) with (S754_zero false).
  destruct (Prim2SF x) as [s | s | | s m e] eqn:E.
  - intros _. destruct s; [right | left]; apply Prim2SF_inj; rewrite E; reflexivity.
  - destruct s; cbv; discriminate.
  - cbv; discriminate.
  - destruct s; cbv; discriminate.
Qed.

Lemma num_or_plain (x : float) : plain x -> num_or x 0 = x.
Proof.
  intros [Hn Hz]. unfold num_or, Num.falsy. rewrite Hn. simpl.
  destruct (is_zero x) eqn:E; [|reflexivity].
  destruct (is_zero_cases x E) as [-> | ->]; [reflexivity | contradiction].
Qed.


Lemma num_or_zero_succ (p : float) :
  is_nan p = false -> (num_or p 0 + 1 = p + 1)%float.
Proof.
  intros Hn. unfold num_or, Num.falsy. rewrite Hn. simpl.
  destruct (is_zero p) eqn:E; [|reflexivity].
  destruct (is_zero_cases p E) as [-> | ->]; reflexivity.
Qed.











(** ** Strings *)

Lemma str_eqb_eq (s t : jstring) : str_eqb s t = true <-> s = t.
Proof.
  revert t. induction s as [|a s IH]; intros [|b t]; cbn; try (split; congruence).
  rewrite andb_true_iff, N.eqb_eq, IH. split; [intros [-> ->]; reflexivity | intros [= -> ->]; auto].
Qed.

Lemma str_eqb_refl (s : jstring) : str_eqb s s = true.
Proof. apply str_eqb_eq. reflexivity. Qed.

Lemma strict_eq_string (v : jsval) (s : jstring) :
  JS.strict_eq v (Some (JStr s)) = true <-> v = Some (JStr s).
Proof.
  destruct v as [[| | |t| |]|]; cbn; try (split; congruence).
  rewrite str_eqb_eq. split; congruence.
Qed.

(** ** Document paths *)

Lemma split_path_plain (cur path : jstring) :
  ~ In slash path ->
  split_path cur path = match rev cur ++ path with [] => [] | x => [x] end.
Proof.
  revert cur. induction path as [|c path IH]; intros cur H; cbn [split_path].
  - rewrite app_nil_r. destruct cur as [|a cur]; [reflexivity |].
    cbn [rev]. destruct (rev cur ++ [a]) eqn:E; [| reflexivity].
    apply app_eq_nil in E as [_ E]. discriminate.
  - destruct (N.eqb_spec c slash) as [-> | _]; [exfalso; apply H; left; reflexivity |].
    rewrite IH by (intros Hin; apply H; right; exact Hin).
    cbn [rev]. rewrite <- app_assoc. reflexivity.
Qed.

Lemma has_double_slash_plain (path : jstring) :
  ~ In slash path -> has_double_slash path = false.
Proof.
  induction path as [|a path IH]; [reflexivity |]. intros H. cbn [has_double_slash].
  destruct path as [|b path]; [reflexivity |].
  destruct (N.eqb_spec a slash) as [-> | _]; [exfalso; apply H; left; reflexivity |].
  cbn [andb orb]. apply IH. intros Hin. apply H. right. exact Hin.
Qed.

(** An id without a slash names the document of that id. *)
Lemma doc_ref_plain (id : jstring) :
  id <> [] -> ~ In slash id -> doc_ref (Some id) = Ok id.
Proof.
  intros Hid H. destruct id as [|c id]; [contradiction |]. unfold doc_ref, path_segments.
  rewrite has_double_slash_plain by exact H. rewrite split_path_plain by exact H. reflexivity.
Qed.

Lemma doc_ref_truthy (uid : option jstring) (id : jstring) :
  doc_ref uid = Ok id -> uid_truthy uid = true.
Proof. destruct uid as [[|c i]|]; [discriminate | reflexivity | discriminate]. Qed.

Lemma doc_ref_throws (uid : option jstring) (ex : exn) :
  doc_ref uid = Throw ex -> ex = DbError.
Proof.
  unfold doc_ref. destruct uid as [[|c i]|]; try congruence.
  destruct (has_double_slash _); [congruence |]. destruct (Nat.odd _); congruence.
Qed.

(** What the client refuses and what it accepts: an even number of
    segments and an empty segment are refused, slashes at the ends are
    dropped, and a longer path with an odd number of segments names a
    document further down. *)
Example doc_ref_cases :
  doc_ref (Some (u "a/b")) = Throw DbError
  /\ doc_ref (Some (u "a//b/c")) = Throw DbError
  /\ doc_ref (Some (u "/")) = Throw DbError
  /\ doc_ref (Some []) = Throw DbError
  /\ doc_ref None = Throw DbError
  /\ doc_ref (Some (u "/u1/")) = Ok (u "u1")
  /\ doc_ref (Some (u "a/b/c")) = Ok (u "a/b/c").
Proof. repeat split. Qed.

(** ** The level map *)

Lemma level_of_first_match (overall : float) :
  level_of overall = first_match thresholds C2 overall.
Proof. reflexivity. Qed.



(** [NaN] is read as zero before the composite is formed. *)
Example mapScoresToLevel_nan :
  mapScoresToLevel Sample.host0 (numeric_scores nan 0 0) = (A1, 0%float).
Proof. reflexivity. Qed.

(** ** The streak *)

Lemma round_div_days (a b : Z) :
  round_div (day_instant a - day_instant b) ms_per_day = a - b.
Proof.
  unfold round_div, day_instant.
  replace (2 * (a * ms_per_day - b * ms_per_day) + ms_per_day)
    with (ms_per_day + (a - b) * (2 * ms_per_day)) by ring.
  rewrite Z.div_add by (unfold ms_per_day; lia).
  rewrite Z.div_small by (unfold ms_per_day; lia). lia.
Qed.

(** C2. The streak advance function [computeNewStreak]: no previous date
    gives streak 1 and changed; a previous date on today's day gives the
    previous streak (1 when that was zero or absent) and not changed; a
    previous date on the day before gives the previous streak plus one and
    changed; any other day, earlier or later, gives 1 and changed. *)
Theorem computeNewStreak_spec (now : Z) (prevStreak : option float) :
  is_count prevStreak ->
  let today := today_of now in
  (let r := computeNewStreak now None prevStreak in
   sr_streak r = 1%float /\ sr_todayISO r = today /\ sr_updated r = true)
  /\ (forall prev day, iso_day prev = Ok day ->
      let r := computeNewStreak now (Some prev) prevStreak in
      sr_todayISO r = today
      /\ (day = today ->
          sr_streak r = (if is_zero (count_of prevStreak) then 1%float else count_of prevStreak)
          /\ sr_updated r = false)
      /\ (day = today - 1 ->
          sr_streak r = (count_of prevStreak + 1)%float /\ sr_updated r = true)
      /\ (day <> today -> day <> today - 1 ->
          sr_streak r = 1%float /\ sr_updated r = true)).
Proof.
  intros Hc today. split; [repeat split |].
  intros prev day Hday. unfold computeNewStreak. rewrite Hday.
  rewrite round_div_days. fold today.
  assert (Hn : is_nan (count_of prevStreak) = false).
  { destruct prevStreak as [p|]; [exact Hc | reflexivity]. }
  fold (count_of prevStreak).
  destruct (Z.eqb_spec (today - day) 0) as [E0 | E0];
    [| destruct (Z.eqb_spec (today - day) 1) as [E1 | E1]];
    cbn [sr_streak sr_todayISO sr_updated];
    (split; [reflexivity |]); (split; [| split]); intros; try lia.
  - unfold num_or, Num.falsy. rewrite Hn. simpl. split; reflexivity.
  - split; [apply num_or_zero_succ; exact Hn | reflexivity].
  - split; reflexivity.
Qed.

Lemma computeNewStreak_spec_witness :
  let r := computeNewStreak 1700000000000 (Some (DateISO 19674)) (Some 5%float) in
  sr_streak r = 6%float /\ sr_updated r = true.
Proof.
  pose proof (computeNewStreak_spec 1700000000000 (Some 5%float)) as H.
  destruct H as (_ & H); [reflexivity |].
  destruct (H (DateISO 19674) 19674 eq_refl) as (_ & _ & Hy & _).
  destruct Hy as [H1 H2]; [reflexivity |].
  split; [rewrite H1; reflexivity | exact H2].
Defined.

(** The four examples of the specification. *)
Example advance_first (now : Z) :
  computeNewStreak now None (Some 0%float)
  = {| sr_streak := 1; sr_todayISO := today_of now; sr_updated := true |}.
Proof. reflexivity. Qed.

Example advance_today :
  computeNewStreak 1700000000000 (Some (DateISO 19675)) (Some 5%float)
  = {| sr_streak := 5; sr_todayISO := 19675; sr_updated := false |}.
Proof. reflexivity. Qed.

Example advance_yesterday :
  computeNewStreak 1700000000000 (Some (DateISO 19674)) (Some 5%float)
  = {| sr_streak := 6; sr_todayISO := 19675; sr_updated := true |}.
Proof. reflexivity. Qed.

Example advance_three_days_ago :
  computeNewStreak 1700000000000 (Some (DateISO 19672)) (Some 5%float)
  = {| sr_streak := 1; sr_todayISO := 19675; sr_updated := true |}.
Proof. reflexivity. Qed.

(** ** The two streak computations *)

Lemma num_or_again (p d : float) : Num.falsy d = true -> num_or (num_or p d) d = num_or p d.
Proof.
  intros Hd. unfold num_or. destruct (Num.falsy p) eqn:E; [rewrite Hd | rewrite E]; reflexivity.
Qed.

(** X8. Where the two streak computations agree: on no previous date, and on
    a previous date in the form the handlers write, with a streak that is not
    zero when the date is today's. *)
Lemma streaks_agree (now : Z) (prev : option stored_date) (prevStreak : option float) :
  match prev with
  | None => True
  | Some (DateISO d) => d = today_of now -> Num.falsy (count_of prevStreak) = false
  | Some _ => False
  end ->
  inline_streak (today_of now) prev prevStreak
  = Ok (sr_streak (computeNewStreak now prev prevStreak)).
Proof.
  destruct prev as [[d | t |]|]; try contradiction; [| reflexivity].
  intros H. unfold inline_streak, computeNewStreak, is_today_string, iso_day.
  fold (count_of prevStreak). cbn [mbind res_bind].
  rewrite !round_div_days.
  destruct (Z.eqb_spec d (today_of now)) as [-> | Hd].
  - rewrite Z.sub_diag. cbn [Z.eqb sr_streak]. unfold num_or. rewrite H by reflexivity.
    reflexivity.
  - destruct (Z.eqb_spec (today_of now - d) 0) as [E0 | E0]; [lia |].
    destruct (Z.eqb_spec (today_of now - d) 1) as [E1 | E1]; cbn [sr_streak]; [| reflexivity].
    rewrite num_or_again by reflexivity. reflexivity.
Qed.

(** C10, where the code departs from it.  On a same-day assessment of a
    record whose streak is zero or missing, [computeNewStreak] gives 1 and the
    placement handler's own computation gives 0; on a stored date that cannot
    be read the first gives 1 and the second throws; on a stored date of
    today in another form the first keeps the streak and the second resets
    it. *)
Theorem streak_inline_differs :
  let now := Sample.clock in
  let today := today_of now in
  (sr_streak (computeNewStreak now (Some (DateISO today)) (Some 0%float)) = 1%float
   /\ inline_streak today (Some (DateISO today)) (Some 0%float) = Ok 0%float)
  /\ (sr_streak (computeNewStreak now (Some (DateISO today)) None) = 1%float
      /\ inline_streak today (Some (DateISO today)) None = Ok 0%float)
  /\ (sr_streak (computeNewStreak now (Some DateInvalid) (Some 5%float)) = 1%float
      /\ inline_streak today (Some DateInvalid) (Some 5%float) = Throw RangeError)
  /\ (sr_streak (computeNewStreak now (Some (DateOther now)) (Some 5%float)) = 5%float
      /\ inline_streak today (Some (DateOther now)) (Some 5%float) = Ok 1%float).
Proof. repeat split. Qed.

(** ** Grading *)

Lemma reduce_idx_lookup (answers : list json) (i j : nat) (acc : gmap nat json) :
  reduce_idx (fun acc item idx => <[idx := item]> acc) answers i acc !! j
  = if decide (i <= j < i + length answers)%nat then answers !! (j - i)%nat else acc !! j.
Proof.
  revert i acc. induction answers as [|a answers IH]; intros i acc; cbn [reduce_idx length].
  - case_decide; [lia | reflexivity].
  - rewrite IH. repeat case_decide; try lia.
    + replace (j - i)%nat with (S (j - S i)) by lia. reflexivity.
    + assert (j = i) as -> by lia. rewrite lookup_insert_eq. 
      replace (i - i)%nat with 0%nat by lia. reflexivity.
    + rewrite lookup_insert_ne by lia. reflexivity.
Qed.

Lemma answersByIndex_lookup (answers : list json) (idx : nat) :
  answersByIndex answers !! idx = answers !! idx.
Proof.
  unfold answersByIndex. rewrite reduce_idx_lookup, lookup_empty.
  case_decide.
  - f_equal. lia.
  - symmetry. apply lookup_ge_None. lia.
Qed.

Lemma grade_one_spec (answers : list json) (acc : nat * list detail) (q : question) (idx : nat) :
  grade_one (answersByIndex answers) acc q idx
  = if is_mcq q
    then ((if answered_correctly answers idx q then S (fst acc) else fst acc),
          snd acc ++ [detail_of answers (idx, q)])
    else acc.
Proof.
  unfold grade_one, detail_of, answered_correctly. rewrite answersByIndex_lookup.
  cbn [fst snd].
  destruct (is_mcq q); [|reflexivity].
  destruct (JS.opt_prop (answers !! idx) (u "selected")) as [[]|]; reflexivity.
Qed.

Lemma grade_fold (answers : list json) (qs : list question) (i : nat) (acc : nat * list detail) :
  let hits := List.filter (fun iq => is_mcq (snd iq) && answered_correctly answers (fst iq) (snd iq))
                          (indexed_from i qs) in
  let asked := List.filter (fun iq => is_mcq (snd iq)) (indexed_from i qs) in
  reduce_idx (grade_one (answersByIndex answers)) qs i acc
  = ((fst acc + length hits)%nat, snd acc ++ List.map (detail_of answers) asked).
Proof.
  revert i acc. induction qs as [|q qs IH]; intros i acc; cbn [reduce_idx indexed_from List.filter].
  - cbn. rewrite Nat.add_0_r, app_nil_r. destruct acc; reflexivity.
  - rewrite IH, grade_one_spec. cbn [fst snd].
    destruct (is_mcq q); cbn [andb fst snd]; [|reflexivity].
    destruct (answered_correctly answers i q); cbn [length List.map fst snd];
      rewrite <- app_assoc; f_equal; lia.
Qed.

Lemma filter_length_mcq (qs : list question) (i : nat) :
  length (List.filter (fun iq : nat * question => is_mcq (snd iq)) (indexed_from i qs))
  = length (List.filter is_mcq qs).
Proof.
  revert i. induction qs as [|q qs IH]; intros i; [reflexivity|].
  cbn [indexed_from List.filter snd]. destruct (is_mcq q); cbn [length]; rewrite IH; reflexivity.
Qed.

Lemma hits_le_asked {A : Type} (p r : A -> bool) (l : list A) :
  (length (List.filter (fun x => p x && r x) l) <= length (List.filter p l))%nat.
Proof.
  induction l as [|x l IH]; [reflexivity|]. cbn [List.filter].
  destruct (p x), (r x); cbn [andb length]; lia.
Qed.

Lemma filter_both {A : Type} (p r : A -> bool) (l : list A) :
  List.filter (fun x => p x && r x) l = List.filter r (List.filter p l).
Proof.
  induction l as [|x l IH]; [reflexivity|]. cbn [List.filter].
  destruct (p x); cbn [andb List.filter]; [destruct (r x)|]; rewrite IH; reflexivity.
Qed.

Lemma mcqPercent_none (g : grading) :
  correct g = 0%nat -> total g = 0%nat -> mcqPercent g = 0%float.
Proof. unfold mcqPercent. intros -> ->. reflexivity. Qed.

(** C4. Grading counts only the multiple-choice questions in the total; a
    question is correct exactly when a selection was supplied at its position
    and is strictly equal to the server's answer, and a question without a
    selection is graded as incorrect, not left out; the percentage is
    [round(correct / max(total, 1) * 100)], which is 0 when there is no
    multiple-choice question. *)
Theorem gradeMCQs_spec (qs : list question) (answers : list json) :
  let g := gradeMCQs qs (answersByIndex answers) in
  total g = length (List.filter is_mcq qs)
  /\ correct g = length (List.filter (fun iq => answered_correctly answers (fst iq) (snd iq))
                                     (graded qs))
  /\ details g = List.map (detail_of answers) (graded qs)
  /\ (correct g <= total g)%nat
  /\ mcqPercent g
     = Num.Math_round (Num.of_nat (correct g) / Num.Math_max (Num.of_nat (total g)) 1 * 100)%float
  /\ (total g = 0%nat -> mcqPercent g = 0%float).
Proof.
  cbn zeta.
  assert (Hc : correct (gradeMCQs qs (answersByIndex answers))
               = length (List.filter (fun iq => answered_correctly answers (fst iq) (snd iq))
                                     (graded qs))).
  { unfold gradeMCQs. rewrite grade_fold. cbn [correct fst]. unfold graded.
    rewrite <- filter_both. reflexivity. }
  assert (Hle : (correct (gradeMCQs qs (answersByIndex answers))
                 <= total (gradeMCQs qs (answersByIndex answers)))%nat).
  { unfold gradeMCQs. rewrite grade_fold. cbn [correct total fst].
    rewrite <- (filter_length_mcq qs 0). apply hits_le_asked. }
  repeat split; try assumption.
  - unfold gradeMCQs. rewrite grade_fold. reflexivity.
  - intros Ht. apply mcqPercent_none; [lia | exact Ht].
Qed.

(** ** Cleaning and parsing the model's reply *)

Section Removal.

Variables (ci : bool) (pat : jstring) (c : N).
Hypothesis pat_nonempty : pat <> [].
Hypothesis c_fresh : forall x, In x pat -> Str.char_eq ci x c = false.

Lemma starts_with_sep (a b : jstring) :
  Str.starts_with ci pat (a ++ c :: b) = Str.starts_with ci pat a.
Proof.
  revert a c_fresh. clear pat_nonempty.
  induction pat as [|x pat' IH]; intros a Hc; [reflexivity|].
  destruct a as [|y a]; cbn [app Str.starts_with].
  - rewrite Hc by (left; reflexivity). reflexivity.
  - rewrite IH; [reflexivity|]. intros z Hz. apply Hc. right. exact Hz.
Qed.

Lemma starts_with_length (s : jstring) :
  Str.starts_with ci pat s = true -> (length pat <= length s)%nat.
Proof.
  clear. revert s. induction pat as [|x pat' IH]; intros s; cbn; [lia|].
  destruct s as [|y s]; [discriminate|]. intros H. apply andb_prop in H as [_ H].
  apply IH in H. cbn. lia.
Qed.

Lemma remove_from_sep (a b : jstring) (skip : nat) :
  (skip <= length a)%nat ->
  Str.remove_from ci pat skip (a ++ c :: b)
  = Str.remove_from ci pat skip a ++ c :: Str.remove_from ci pat 0 b.
Proof.
  revert skip. induction a as [|y a IH]; intros skip Hs.
  - cbn in Hs. assert (skip = 0)%nat as -> by lia. cbn [app Str.remove_from].
    pose proof (starts_with_sep [] b) as E. cbn [app] in E. rewrite E.
    destruct pat; [contradiction | reflexivity].
  - cbn [app Str.remove_from]. destruct skip as [|k].
    + change (y :: a ++ c :: b) with ((y :: a) ++ c :: b). rewrite starts_with_sep.
      destruct (Str.starts_with ci pat (y :: a)) eqn:E.
      * apply IH. apply starts_with_length in E. cbn in E. lia.
      * cbn [app]. f_equal. apply IH. lia.
    + apply IH. cbn in Hs. lia.
Qed.

Lemma remove_all_sep (a b : jstring) :
  Str.remove_all ci pat (a ++ c :: b)
  = Str.remove_all ci pat a ++ c :: Str.remove_all ci pat b.
Proof. apply remove_from_sep. lia. Qed.

End Removal.

Lemma remove_from_absent (ci : bool) (pat s : jstring) :
  contains ci pat s = false -> Str.remove_from ci pat 0 s = s.
Proof.
  induction s as [|x s IH]; [reflexivity|]. cbn [contains Str.remove_from].
  intros H. apply orb_false_elim in H as [H1 H2]. rewrite H1. f_equal. apply IH, H2.
Qed.

Lemma remove_from_In (ci : bool) (pat s : jstring) (skip : nat) (x : N) :
  In x (Str.remove_from ci pat skip s) -> In x s.
Proof.
  revert skip. induction s as [|y s IH]; intros skip; cbn [Str.remove_from]; [tauto|].
  destruct skip as [|k].
  - destruct (Str.starts_with ci pat (y :: s)).
    + intros H. right. eapply IH, H.
    + intros [-> | H]; [left; reflexivity | right; eapply IH, H].
  - intros H. right. eapply IH, H.
Qed.

Lemma starts_with_app (ci : bool) (pat a b : jstring) :
  Str.starts_with ci pat a = true -> Str.starts_with ci pat (a ++ b) = true.
Proof.
  revert a. induction pat as [|x pat IH]; intros a; [reflexivity|].
  destruct a as [|y a]; [discriminate|]. cbn [app Str.starts_with].
  intros H. apply andb_prop in H as [H1 H2]. rewrite H1, IH by exact H2. reflexivity.
Qed.

Lemma contains_app_l (ci : bool) (pat a b : jstring) :
  contains ci pat (a ++ b) = false -> contains ci pat a = false.
Proof.
  induction a as [|y a IH]; cbn [app contains].
  - intros H. destruct pat; [destruct b; cbn in H; discriminate | reflexivity].
  - intros H. apply orb_false_elim in H as [H1 H2]. rewrite IH by exact H2.
    destruct (Str.starts_with ci pat (y :: a)) eqn:E; [|reflexivity].
    apply (starts_with_app _ _ _ b) in E. cbn [app] in E. congruence.
Qed.

Lemma contains_tail (ci : bool) (pat : jstring) (x : N) (s : jstring) :
  contains ci pat (x :: s) = false -> contains ci pat s = false.
Proof. cbn [contains]. intros H. apply orb_false_elim in H as [_ H]. exact H. Qed.

Lemma upper_backquote (x : N) : Str.upper x = 96%N -> x = 96%N.
Proof.
  unfold Str.upper. destruct ((97 <=? x)%N && (x <=? 122)%N) eqn:E; [|tauto].
  apply andb_prop in E as [E1 E2]. apply N.leb_le in E1, E2. lia.
Qed.

Lemma fence_json_is_fence (s : jstring) :
  Str.starts_with true Str.fence_json s = true -> Str.starts_with false Str.fence s = true.
Proof.
  destruct s as [|a [|b [|c s]]]; try (cbn; rewrite ?andb_false_r; discriminate).
  change Str.fence_json with (96 :: 96 :: 96 :: u "json")%N.
  change Str.fence with [96; 96; 96]%N.
  cbn [Str.starts_with Str.char_eq]. change (Str.upper 96) with 96%N.
  intros H. apply andb_prop in H as [Ha H]. apply andb_prop in H as [Hb H].
  apply andb_prop in H as [Hc _].
  apply N.eqb_eq in Ha, Hb, Hc. symmetry in Ha, Hb, Hc.
  apply upper_backquote in Ha, Hb, Hc. subst. reflexivity.
Qed.

Lemma contains_fence_json (s : jstring) :
  contains false Str.fence s = false -> contains true Str.fence_json s = false.
Proof.
  induction s as [|x s IH].
  - reflexivity.
  - intros H. pose proof H as H'. cbn [contains] in H. apply orb_false_elim in H as [H1 H2].
    cbn [contains]. rewrite IH by exact H2.
    destruct (Str.starts_with true Str.fence_json (x :: s)) eqn:E; [|reflexivity].
    apply fence_json_is_fence in E. congruence.
Qed.

Lemma strip_In (s : jstring) (x : N) : In x (strip s) -> In x s.
Proof. unfold strip, Str.remove_all. intros H. eapply remove_from_In, remove_from_In, H. Qed.

Lemma strip_absent (s : jstring) : contains false Str.fence s = false -> strip s = s.
Proof.
  intros H. unfold strip, Str.remove_all.
  rewrite (remove_from_absent true) by (apply contains_fence_json, H).
  apply remove_from_absent, H.
Qed.

Lemma fence_chars (x : N) : In x Str.fence -> x = 96%N.
Proof.
  change Str.fence with [96; 96; 96]%N. cbn [In]. intuition congruence.
Qed.

Lemma fence_json_chars (x : N) :
  In x Str.fence_json -> x = 96%N \/ (97 <= x <= 122)%N.
Proof.
  change Str.fence_json with [96; 96; 96; 106; 115; 111; 110]%N. cbn [In].
  intros H. repeat (destruct H as [<- | H]; [lia |]). contradiction.
Qed.

(** A character that is neither a backquote nor a letter separates the
    matches of both replacements. *)
Lemma strip_sep (c : N) (a b : jstring) :
  c <> 96%N -> ~ (65 <= c <= 90)%N -> ~ (97 <= c <= 122)%N ->
  strip (a ++ c :: b) = strip a ++ c :: strip b.
Proof.
  intros Hc Hu Hl. unfold strip.
  rewrite (remove_all_sep true Str.fence_json c); [| discriminate |].
  - rewrite (remove_all_sep false Str.fence c); [reflexivity | discriminate |].
    intros x Hx. apply fence_chars in Hx as ->. cbn [Str.char_eq]. apply N.eqb_neq. congruence.
  - intros x Hx. apply fence_json_chars in Hx. cbn [Str.char_eq]. apply N.eqb_neq.
    assert (Hcu : Str.upper c = c).
    { unfold Str.upper. destruct ((97 <=? c)%N && (c <=? 122)%N) eqn:E; [|reflexivity].
      apply andb_prop in E as [E1 E2]. apply N.leb_le in E1, E2. lia. }
    rewrite Hcu. unfold Str.upper.
    destruct ((97 <=? x)%N && (x <=? 122)%N) eqn:E.
    + apply andb_prop in E as [E1 E2]. apply N.leb_le in E1, E2. lia.
    + destruct Hx as [-> | Hx]; [congruence |].
      apply andb_false_iff in E as [E | E]; apply N.leb_gt in E; lia.
Qed.

Lemma trim_start_In (s : jstring) (x : N) : In x (Str.trim_start s) -> In x s.
Proof.
  induction s as [|y s IH]; cbn [Str.trim_start]; [tauto|].
  destruct (Str.is_space y); [intros H; right; apply IH, H | tauto].
Qed.

Lemma trim_end_In (s : jstring) (x : N) : In x (Str.trim_end s) -> In x s.
Proof.
  unfold Str.trim_end. rewrite <- !in_rev. intros H. 
  apply trim_start_In in H. rewrite <- in_rev in H. exact H.
Qed.

Lemma trim_start_sep (a : jstring) (c : N) (r : jstring) :
  Str.is_space c = false -> Str.trim_start (a ++ c :: r) = Str.trim_start a ++ c :: r.
Proof.
  intros Hc. induction a as [|y a IH]; cbn [app Str.trim_start].
  - rewrite Hc. reflexivity.
  - destruct (Str.is_space y); [exact IH | reflexivity].
Qed.

Lemma trim_end_sep (a : jstring) (c : N) (r : jstring) :
  Str.is_space c = false -> Str.trim_end (a ++ c :: r) = a ++ c :: Str.trim_end r.
Proof.
  intros Hc. unfold Str.trim_end.
  rewrite rev_app_distr. cbn [rev]. rewrite <- app_assoc. cbn [app].
  rewrite trim_start_sep by exact Hc.
  rewrite rev_app_distr. cbn [rev]. rewrite rev_involutive, <- app_assoc. reflexivity.
Qed.

Lemma from_first_sep (c : N) (a r : jstring) :
  ~ In c a -> Str.from_first c (a ++ c :: r) = Some (c :: r).
Proof.
  induction a as [|y a IH]; cbn [app Str.from_first]; intros H.
  - rewrite N.eqb_refl. reflexivity.
  - destruct (N.eqb_spec y c) as [-> | _]; [exfalso; apply H; left; reflexivity|].
    apply IH. intros Hin. apply H. right. exact Hin.
Qed.

Lemma through_last_absent (c : N) (s : jstring) : ~ In c s -> Str.through_last c s = None.
Proof.
  induction s as [|y s IH]; [reflexivity|]. intros H. cbn [Str.through_last].
  rewrite IH by (intros Hin; apply H; right; exact Hin).
  destruct (N.eqb_spec y c) as [-> | _]; [exfalso; apply H; left; reflexivity | reflexivity].
Qed.

Lemma through_last_sep (c : N) (a r : jstring) :
  ~ In c r -> Str.through_last c (a ++ c :: r) = Some (a ++ [c]).
Proof.
  intros H. induction a as [|y a IH]; cbn [app Str.through_last].
  - rewrite through_last_absent by exact H. rewrite N.eqb_refl. reflexivity.
  - rewrite IH. reflexivity.
Qed.

Lemma match_object_braced (a mid b : jstring) :
  ~ In Str.lbrace a -> ~ In Str.rbrace b ->
  Str.match_object (a ++ braced mid ++ b) = Some (braced mid).
Proof.
  intros Ha Hb. unfold Str.match_object, braced. cbn [app].
  rewrite from_first_sep by exact Ha. rewrite <- app_assoc. cbn [app].
  rewrite through_last_sep by exact Hb. reflexivity.
Qed.

Lemma clean_braced (p mid s : jstring) :
  contains false Str.fence (braced mid) = false ->
  Str.clean (p ++ braced mid ++ s)
  = Str.trim_start (strip p) ++ braced mid ++ Str.trim_end (strip s).
Proof.
  intros Hf. unfold Str.clean. fold (strip (p ++ braced mid ++ s)).
  unfold braced in *. cbn [app]. rewrite <- app_assoc. cbn [app].
  rewrite (strip_sep Str.lbrace) by (unfold Str.lbrace; lia).
  rewrite (strip_sep Str.rbrace) by (unfold Str.rbrace; lia).
  rewrite (strip_absent mid) by (eapply contains_app_l, contains_tail, Hf).
  unfold Str.trim. rewrite trim_start_sep by reflexivity.
  rewrite app_comm_cons, app_assoc, trim_end_sep by reflexivity.
  rewrite <- !app_assoc. reflexivity.
Qed.

(** C3, as the code has it.  A JSON object text without a run of three
    backquotes, placed between a prefix without an opening brace and a suffix
    without a closing brace (prose and fence markers alike), is recovered by
    [normalize]: either its surroundings clean away and the direct parse
    succeeds, or the whole cleaned text is not JSON and the span from the
    first opening brace to the last closing brace is the object text. *)
Theorem normalize_braced (fb : fallback) (p mid s : jstring) (v : json) :
  JSON.parse (braced mid) = Some v ->
  contains false Str.fence (braced mid) = false ->
  ~ In Str.lbrace p ->
  ~ In Str.rbrace s ->
  JSON.parse (Str.clean (p ++ braced mid ++ s)) = None
  \/ Str.clean (p ++ braced mid ++ s) = braced mid ->
  normalize fb (p ++ braced mid ++ s) = Ok v.
Proof.
  intros Hv Hf Hp Hs Hd. unfold normalize, parse_reply.
  destruct Hd as [Hd | Hd]; rewrite Hd.
  - rewrite clean_braced by exact Hf.
    rewrite match_object_braced, Hv; [reflexivity | |].
    + intros H. apply Hp. apply strip_In, trim_start_In, H.
    + intros H. apply Hs. apply strip_In, trim_end_In, H.
  - rewrite Hv. reflexivity.
Qed.

Lemma normalize_braced_witness :
  normalize GiveUp (u "Here it is: ```json " ++ braced (uq "'level':'B1','confidence':0.76")
                      ++ u " ``` Hope it helps.")
  = Ok (JObj [(u "level", JStr (u "B1")); (u "confidence", JNum 0.76)]).
Proof.
  apply (normalize_braced GiveUp (u "Here it is: ```json ")
           (uq "'level':'B1','confidence':0.76") (u " ``` Hope it helps.")).
  - reflexivity.
  - reflexivity.
  - intros H. repeat (destruct H as [H | H]; [discriminate |]). exact H.
  - intros H. repeat (destruct H as [H | H]; [discriminate |]). exact H.
  - left. reflexivity.
Defined.

(** C3, as stated, fails: prose with braces of its own makes the span from
    the first opening brace to the last closing brace something else than
    the object, and the second parse throws. *)
Lemma normalize_roundtrip_fails :
  ~ (forall (fb : fallback) (p o s : jstring) (v : json),
        JSON.parse o = Some v -> (exists m, v = JObj m) ->
        normalize fb (p ++ o ++ s) = Ok v).
Proof.
  intros H.
  specialize (H WrapRaw (u "Scores {draft}: ") (uq "{'vocab':72}") []
                (JObj [(u "vocab", JNum 72)]) eq_refl (ex_intro _ _ eq_refl)).
  vm_compute in H. discriminate.
Qed.

(** Other ways to lose the object: a fence inside one of its strings is cut
    out of the string, and surroundings that make the whole text JSON win
    over the object. *)
Example normalize_fence_inside :
  JSON.parse (uq "{'code':'```'}") = Some (JObj [(u "code", JStr (u "```"))])
  /\ normalize WrapRaw (uq "{'code':'```'}") = Ok (JObj [(u "code", JStr [])]).
Proof. split; reflexivity. Qed.

Example normalize_wrapped_in_json :
  normalize WrapRaw (uq "[{'vocab':72}]") = Ok (JArr [JObj [(u "vocab", JNum 72)]]).
Proof. reflexivity. Qed.

(** Without any brace the two call sites part: one wraps the raw text, the
    other throws. *)
Example normalize_no_object :
  normalize WrapRaw (u "I cannot rate this.") = Ok (JObj [(u "raw", JStr (u "I cannot rate this."))])
  /\ normalize GiveUp (u "I cannot rate this.") = Throw (Error (u "Gemini returned unparsable JSON")).
Proof. split; reflexivity. Qed.

(** The usual shape of a reply: the object between fence markers and white
    space only. *)
Corollary normalize_fenced (fb : fallback) (p mid s : jstring) (v : json) :
  JSON.parse (braced mid) = Some v ->
  contains false Str.fence (braced mid) = false ->
  Str.trim_start (strip p) = [] ->
  Str.trim_end (strip s) = [] ->
  normalize fb (p ++ braced mid ++ s) = Ok v.
Proof.
  intros Hv Hf Hp Hs. unfold normalize, parse_reply.
  rewrite clean_braced by exact Hf. rewrite Hp, Hs, app_nil_r. cbn [app].
  rewrite Hv. reflexivity.
Qed.

Example normalize_fenced_reply :
  normalize GiveUp (u "```json " ++ braced (uq "'vocab':72") ++ u " ```")
  = Ok (JObj [(u "vocab", JNum 72)]).
Proof. apply normalize_fenced; reflexivity. Qed.

(** ** The poll loop *)

Lemma run_poll_turn (h : host) (id : jsval) (answers : nat -> reply) (fuel asked : nat)
  (trace : list poll_event) :
  run_poll answers (3 + fuel) (pollTranscript h id) asked trace
  = match poll_decide h (answers asked) with
    | inr r => Some (r, trace ++ turn_trace id)
    | inl _ => run_poll answers fuel (pollTranscript h id) (S asked) (trace ++ turn_trace id)
    end.
Proof.
  unfold turn_trace. cbn. unfold observe. cbn.
  destruct (poll_decide h (answers asked)) as [[]|r]; cbn; rewrite <- app_assoc; reflexivity.
Qed.

Lemma run_poll_short (h : host) (id : jsval) (answers : nat -> reply) (fuel asked : nat)
  (trace : list poll_event) :
  (fuel < 3)%nat -> run_poll answers fuel (pollTranscript h id) asked trace = None.
Proof.
  intros H. destruct fuel as [|[|[|fuel]]]; try lia; reflexivity.
Qed.









(** ** The placement handler *)

Lemma correct_le_total (qs : list question) (answers : list json) :
  (correct (gradeMCQs qs (answersByIndex answers))
   <= total (gradeMCQs qs (answersByIndex answers)))%nat.
Proof.
  unfold gradeMCQs. rewrite grade_fold. cbn [correct total fst].
  rewrite <- (filter_length_mcq qs 0). apply hits_le_asked.
Qed.

Lemma total_QUESTIONS (m : gmap nat json) : total (gradeMCQs QUESTIONS m) = 10%nat.
Proof. reflexivity. Qed.





(** The ways the model's evaluation fails. *)
Lemma evaluation_fails_when (h : host) (e : env) (sample : jstring) :
  gemini_key e = false
  \/ gemini e = NoReply
  \/ (exists s b, gemini e = Reply s b
                  /\ (http_ok s = false
                      \/ JSON.parse b = None
                      \/ exists j ex, JSON.parse b = Some j
                                      /\ normalize GiveUp (candidate_text h j) = Throw ex)) ->
  evaluation_failed h e sample.
Proof.
  unfold evaluation_failed, callGeminiEvaluate.
  intros [Hk | [Hn | (s & b & Hr & [Hs | [Hp | (j & ex & Hp & Hx)]])]].
  - rewrite Hk. exact I.
  - destruct (gemini_key e); [| exact I]. rewrite Hn. exact I.
  - destruct (gemini_key e); [| exact I]. rewrite Hr, Hs. exact I.
  - destruct (gemini_key e); [| exact I]. rewrite Hr. destruct (http_ok s); [| exact I].
    unfold body_json. rewrite Hp. exact I.
  - destruct (gemini_key e); [| exact I]. rewrite Hr. destruct (http_ok s); [| exact I].
    unfold body_json. rewrite Hp. cbn [negb mbind res_bind]. rewrite Hx. exact I.
Qed.




(** ** Badges *)

Lemma includes_In (b : jstring) (l : list jstring) : includes b l = true <-> In b l.
Proof.
  unfold includes. rewrite existsb_exists. split.
  - intros (x & Hx & E). apply str_eqb_eq in E. subst. exact Hx.
  - intros H. exists b. split; [exact H | apply str_eqb_refl].
Qed.

Lemma award_keeps (s t : float) (b x : jstring) (l : list jstring) :
  In x l -> In x (award s t b l).
Proof.
  intros H. unfold award. destruct (_ && _); [apply in_or_app; left |]; exact H.
Qed.

Lemma award_reached (s t : float) (b : jstring) (l : list jstring) :
  (t <=? s)%float = true -> In b (award s t b l).
Proof.
  intros H. unfold award. rewrite H. cbn [andb].
  destruct (includes b l) eqn:E; cbn [negb].
  - apply includes_In, E.
  - apply in_or_app. right. left. reflexivity.
Qed.

Create HintDb badges.
#[local] Hint Resolve award_keeps award_reached : badges.

Lemma award_present (s t : float) (b : jstring) (l : list jstring) :
  In b l -> award s t b l = l.
Proof.
  intros H. apply includes_In in H. unfold award. rewrite H, andb_false_r. reflexivity.
Qed.

Lemma award_below (s t : float) (b : jstring) (l : list jstring) :
  (t <=? s)%float = false -> award s t b l = l.
Proof. intros H. unfold award. rewrite H. reflexivity. Qed.

Lemma award_again (s t : float) (b : jstring) (l : list jstring) :
  award s t b (award s t b l) = award s t b l.
Proof.
  destruct (t <=? s)%float eqn:E.
  - apply award_present, award_reached, E.
  - rewrite !award_below by exact E. reflexivity.
Qed.

Lemma award_NoDup (s t : float) (b : jstring) (l : list jstring) :
  NoDup l -> NoDup (award s t b l).
Proof.
  intros H. unfold award. destruct (t <=? s)%float; cbn [andb]; [|exact H].
  destruct (includes b l) eqn:E; cbn [negb]; [exact H |].
  apply NoDup_app; repeat split.
  - exact H.
  - intros x Hx Hb. apply list_elem_of_In in Hx, Hb. destruct Hb as [<- | []].
    apply includes_In in Hx. congruence.
  - apply NoDup_singleton.
Qed.

(** X9. The badge lines of the placement handler: every badge whose
    threshold the streak has reached is in the result, nothing is lost,
    nothing is added twice, and a second evaluation changes nothing. *)
Lemma award_badges_spec (s : float) (l : list jstring) :
  ((3 <=? s)%float = true -> In (u "starter") (award_badges s l))
  /\ ((7 <=? s)%float = true -> In (u "bronze") (award_badges s l))
  /\ ((14 <=? s)%float = true -> In (u "silver") (award_badges s l))
  /\ ((30 <=? s)%float = true -> In (u "gold") (award_badges s l))
  /\ (forall x, In x l -> In x (award_badges s l))
  /\ (NoDup l -> NoDup (award_badges s l))
  /\ award_badges s (award_badges s l) = award_badges s l.
Proof.
  unfold award_badges. repeat split; try solve [auto 6 with badges].
  - intros H. do 4 apply award_NoDup. exact H.
  - set (l1 := award s 3 (u "starter") l).
    set (l2 := award s 7 (u "bronze") l1).
    set (l3 := award s 14 (u "silver") l2).
    set (l4 := award s 30 (u "gold") l3).
    assert (E1 : award s 3 (u "starter") l4 = l4).
    { destruct (3 <=? s)%float eqn:E; [| apply award_below, E].
      apply award_present. do 3 apply award_keeps. apply award_reached, E. }
    assert (E2 : award s 7 (u "bronze") l4 = l4).
    { destruct (7 <=? s)%float eqn:E; [| apply award_below, E].
      apply award_present. do 2 apply award_keeps. apply award_reached, E. }
    assert (E3 : award s 14 (u "silver") l4 = l4).
    { destruct (14 <=? s)%float eqn:E; [| apply award_below, E].
      apply award_present. apply award_keeps. apply award_reached, E. }
    rewrite E1, E2, E3. apply award_again.
Qed.

(** The writing and speaking handlers leave the badges as they are. *)
Lemma write_progress_avatars (parsed : json) (at_ today : Z) (s : float) (d : userdoc) :
  avatars (write_progress parsed at_ today s d) = avatars d.
Proof. reflexivity. Qed.

Lemma award_badges_keeps (s : float) (l : list jstring) (x : jstring) :
  In x l -> In x (award_badges s l).
Proof. unfold award_badges. auto 6 with badges. Qed.

Lemma set_keeps_badges (e : env) (uid : jstring) (write : userdoc -> userdoc) (st : store)
  (id x : jstring) :
  (forall d, forall y, In y (default [] (avatars d)) -> In y (default [] (avatars (write d)))) ->
  In x (badges st id) -> In x (badges (snd (db_set e uid write st)) id).
Proof.
  intros Hw. unfold db_set, badges. destruct (db_set_ok e); [| tauto]. cbn [snd users].
  destruct (decide (uid = id)) as [-> | Hne].
  - rewrite lookup_insert_eq. cbn [mbind option_bind].
    destruct (users st !! id) as [d|]; cbn [default mbind option_bind]; [apply Hw | intros []].
  - rewrite lookup_insert_ne by exact Hne. tauto.
Qed.

Lemma add_keeps_badges (e : env) (uid : jstring) (en : entry) (st : store) (id : jstring) :
  badges (snd (db_add e uid en st)) id = badges st id.
Proof. unfold db_add, badges. destruct (db_add_ok e); reflexivity. Qed.

Lemma save_assessment_keeps_badges (e : env) (uid : option jstring) (kind : String.string)
  (inp : input) (parsed : json) (st : store) (id x : jstring) :
  In x (badges st id) -> In x (badges (snd (save_assessment e uid kind inp parsed st)) id).
Proof.
  intros H. unfold save_assessment, mbind, io_bind, lift.
  destruct (doc_ref uid) as [i|]; [| exact H].
  unfold db_get. destruct (db_get_ok e); [| exact H].
  destruct (JS.prop (Some parsed) (u "level")); [| exact H].
  match goal with |- context [db_set e i ?w st] =>
    pose proof (set_keeps_badges e i w st id x (fun d y Hy => Hy) H) as Hs;
    destruct (db_set e i w st) as [[[]|ex] st1]; [| exact Hs]
  end.
  cbn [snd] in Hs.
  match goal with |- context [db_add e i ?en st1] =>
    pose proof (add_keeps_badges e i en st1 id) as Ha;
    destruct (db_add e i en st1) as [[[]|ex] st2]; cbn [snd] in Ha;
    unfold mret, io_ret; cbn [snd]; rewrite Ha; exact Hs
  end.
Qed.

Lemma save_placement_keeps_badges (e : env) (req : placement_req) (answers : list json)
  (r : placement_result) (st : store) (id x : jstring) :
  In x (badges st id) -> In x (badges (snd (save_placement e req answers r st)) id).
Proof.
  intros H. unfold save_placement. destruct (p_uid req) as [[|c i0]|]; try exact H.
  unfold mbind, io_bind, lift. destruct (doc_ref _) as [i|]; [| exact H].
  unfold db_get. destruct (db_get_ok e); [| exact H].
  destruct (inline_streak _ _ _) as [s|]; [| exact H].
  match goal with |- context [db_set e ?i ?w st] =>
    assert (Hs : In x (badges (snd (db_set e i w st)) id));
    [ unfold db_set, badges; destruct (db_set_ok e); [| exact H]; cbn [snd users];
      destruct (decide (i = id)) as [-> | Hne];
      [ rewrite lookup_insert_eq; cbn [mbind option_bind write_placement avatars default];
        apply award_badges_keeps; unfold badges in H;
        destruct (users st !! id); exact H
      | rewrite lookup_insert_ne by exact Hne; exact H ]
    | destruct (db_set e i w st) as [[[]|ex] st1]; [| exact Hs] ]
  end.
  cbn [snd] in Hs.
  match goal with |- context [db_add e ?i ?en st1] =>
    pose proof (add_keeps_badges e i en st1 id) as Ha;
    destruct (db_add e i en st1) as [[[]|ex] st2]; cbn [snd] in Ha;
    cbn [snd]; rewrite Ha; exact Hs
  end.
Qed.

Lemma respond_snd (body : io response) (st : store) : snd (respond body st) = snd (body st).
Proof. unfold respond. destruct (body st) as [[r|ex] st']; reflexivity. Qed.

(** X11. No handler takes a badge away: a badge that a user holds before a
    request to any of the three handlers is held after it. *)
Lemma badges_never_removed (h : host) (e : env) (st : store) (id x : jstring) :
  In x (badges st id) ->
  (forall req, In x (badges (snd (handler_writing h e req st)) id))
  /\ (forall req, In x (badges (snd (handler_placement h e req st)) id))
  /\ (forall req fuel r st', handler_speaking h e req fuel st = Some (r, st') ->
                             In x (badges st' id)).
Proof.
  intros H. split; [| split].
  - intros req. unfold handler_writing. rewrite respond_snd. unfold writing_body.
    destruct (negb (is_post (w_method req))); [exact H |].
    destruct (w_textSample req) as [t|]; [| exact H].
    destruct (_ || _); [exact H |].
    destruct (gemini e) as [|s b]; [exact H |].
    destruct (negb (http_ok s)); [exact H |].
    unfold_io. destruct (body_json b) as [j|]; [| exact H].
    destruct (normalize WrapRaw (candidate_text h j)) as [p|]; [| exact H].
    apply save_assessment_keeps_badges, H.
  - intros req. unfold handler_placement. rewrite respond_snd. unfold placement_body.
    destruct (negb (is_post (p_method req))); [exact H |].
    destruct (p_answers req) as [[| | | |answers|]|]; try exact H.
    unfold_io. destruct (find_writing answers) as [w|]; [| exact H].
    match goal with |- context [save_placement e req answers ?r st] =>
      pose proof (save_placement_keeps_badges e req answers r st id x H) as Hs;
      destruct (save_placement e req answers r st) as [[[]|ex] st1]; exact Hs
    end.
  - intros req fuel r st' E. unfold handler_speaking in E.
    destruct (speaking_body h e req fuel) as [body|] eqn:Eb; [| discriminate].
    injection E as E. apply (f_equal snd) in E. cbn [snd] in E. subst st'.
    rewrite respond_snd. unfold speaking_body in Eb.
    destruct (negb (is_post (s_method req))); [injection Eb as <-; exact H |].
    destruct (negb (s_form_ok req)); [injection Eb as <-; exact H |].
    destruct (negb (s_file req)); [injection Eb as <-; exact H |].
    destruct (uploadToAssembly e) as [url|]; [| injection Eb as <-; exact H].
    destruct (createTranscription e url) as [job|]; [| injection Eb as <-; exact H].
    destruct (run_poll _ _ _ _ _) as [[polled tr]|]; [| discriminate].
    injection Eb as <-. unfold_io.
    destruct polled as [text|]; [| exact H].
    destruct (callGemini h e) as [p|]; [| exact H].
    apply save_assessment_keeps_badges, H.
Qed.

(** C6, where the code departs from it.  A user with a streak of two and no
    badge is assessed on the next day.  Through the writing handler the
    streak becomes three and the badge list stays empty; through the
    placement handler the same advance awards "starter". *)
Theorem badges_skipped_by_writing :
  let model := Sample.env_with (Sample.model_says Sample.rating) in
  let after_writing := snd (handler_writing Sample.host0 model Sample.writing Sample.regular) in
  let after_placement := snd (handler_placement Sample.host0 model Sample.placement Sample.regular) in
  ((fun d => (streak d, avatars d)) <$> users after_writing !! Sample.uid)
  = Some (Some 3%float, Some [])
  /\ ((fun d => (streak d, avatars d)) <$> users after_placement !! Sample.uid)
     = Some (Some 3%float, Some [u "starter"]).
Proof. split; vm_compute; reflexivity. Qed.

(** ** The first writing assessment of a user *)






(** An id that names no document: the client of the store refuses it
    before any call of the store, the request fails and nothing is written;
    the placement handler does the same. *)
Example refused_id :
  let rated := Sample.env_with (Sample.model_says Sample.rating) in
  handler_writing Sample.host0 rated
    {| w_method := u "POST";
       w_textSample := Some (JStr (u "I have lived in Lima for ten years."));
       w_uid := Some (u "a/b") |} Sample.nobody
  = ({| status := 500; sent := CError DbError |}, Sample.nobody)
  /\ handler_placement Sample.host0 rated
       {| p_method := u "POST"; p_uid := Some (u "a/b"); p_claimedLevel := None;
          p_answers := Some (JArr Sample.answers) |} Sample.nobody
     = ({| status := 500; sent := CError DbError |}, Sample.nobody).
Proof. split; vm_compute; reflexivity. Qed.

(** ** Provider failures *)



Lemma speaking_reaches_poll (h : host) (e : env) (req : speaking_req) (fuel : nat)
  (uploadUrl id : jsval) :
  valid_speaking req ->
  uploadToAssembly e = Ok uploadUrl ->
  createTranscription e uploadUrl = Ok id ->
  speaking_body h e req fuel
  = match run_poll (transcript_status e) fuel (pollTranscript h id) 0 [] with
    | None => None
    | Some (polled, _) =>
        Some (transcriptText ← lift polled;
              parsed ← lift (callGemini h e);
              save_assessment e (s_uid req) "speaking" (ISpeaking transcriptText) parsed)
    end.
Proof.
  intros (Hm & Hf & Hi) Hu Hc. unfold speaking_body. rewrite Hm, Hf, Hi, Hu, Hc. reflexivity.
Qed.





(** The speaking handler on a job that fails at the third status request. *)
Example speaking_job_fails :
  let e := {| now := Sample.clock; gemini_key := true;
              gemini := Sample.model_says Sample.rating; fs_ok := true;
              upload := Reply 200 (uq "{'upload_url':'https://cdn.example/a'}");
              transcript_job := Reply 200 (uq "{'id':'job1'}");
              transcript_status := fun n =>
                match n with
                | 2%nat => Reply 200 (uq "{'status':'error','error':'bad audio'}")
                | _ => Reply 200 (uq "{'status':'processing'}")
                end;
              db_get_ok := true; db_set_ok := true; db_add_ok := true |} in
  handler_speaking Sample.host0 e Sample.speaking 9 Sample.regular
  = Some ({| status := 500; sent := CError (Error (u "Transcription error: bad audio")) |},
          Sample.regular).
Proof. vm_compute. reflexivity. Qed.

(** ** Examples on the sample inputs *)

Lemma gradeMCQs_spec_witness :
  mcqPercent (gradeMCQs [] (answersByIndex [])) = 0%float.
Proof.
  destruct (gradeMCQs_spec [] []) as (_ & _ & _ & _ & _ & H). apply H. reflexivity.
Defined.

(** Five multiple-choice questions, three right selections, one wrong and
    one missing: 3 of 5, 60 percent. *)
Example grade_three_of_five :
  let g := gradeMCQs (take 5 QUESTIONS) (answersByIndex (take 5 Sample.answers)) in
  correct g = 3%nat /\ total g = 5%nat /\ mcqPercent g = 60%float
  /\ List.map d_isCorrect (details g) = [true; true; true; false; false].
Proof. repeat split. Qed.



(** ** More on grading *)

Lemma answersByIndex_size (answers : list json) :
  size (answersByIndex answers) = length answers.
Proof.
  assert (E : answersByIndex answers = map_seq 0 answers).
  { apply map_eq. intros i. rewrite answersByIndex_lookup, lookup_map_seq_0. reflexivity. }
  rewrite E. clear E. generalize 0%nat.
  induction answers as [|a answers IH]; intros n; cbn [map_seq length].
  - apply map_size_empty.
  - rewrite map_size_insert_None; [rewrite IH; reflexivity |].
    apply lookup_map_seq_None. lia.
Qed.

(** X1. The object built by [answers.reduce] holds exactly the items of the
    list, each under its position: looking a position up gives the item
    there, positions past the end are absent, and there are as many keys as
    items. *)
Theorem answersByIndex_holds_the_list (answers : list json) :
  (forall idx, answersByIndex answers !! idx = answers !! idx)
  /\ (forall idx, is_Some (answersByIndex answers !! idx) <-> (idx < length answers)%nat)
  /\ size (answersByIndex answers) = length answers.
Proof.
  split; [| split].
  - apply answersByIndex_lookup.
  - intros idx. rewrite answersByIndex_lookup. apply lookup_lt_is_Some.
  - apply answersByIndex_size.
Qed.

Lemma grade_fold_any (byIndex : gmap nat json) (qs : list question) (i : nat)
  (acc : nat * list detail) :
  exists ds,
    reduce_idx (grade_one byIndex) qs i acc
    = ((fst acc + length (List.filter d_isCorrect ds))%nat, snd acc ++ ds)
    /\ List.map d_id ds = List.map q_id (List.filter is_mcq qs)
    /\ List.map d_expected ds = List.map q_answer (List.filter is_mcq qs).
Proof.
  revert i acc. induction qs as [|q qs IH]; intros i acc; cbn [reduce_idx List.filter].
  - exists []. cbn. rewrite Nat.add_0_r, app_nil_r. destruct acc; auto.
  - destruct (IH (S i) (grade_one byIndex acc q i)) as (ds & E & Hid & Hex).
    rewrite E. unfold grade_one. destruct (is_mcq q).
    + cbn [fst snd]. rewrite <- app_assoc. cbn [app].
      match goal with |- context [snd acc ++ ?d :: ds] => exists (d :: ds) end.
      cbn [List.filter d_isCorrect List.map d_id d_expected]. rewrite Hid, Hex.
      repeat split. destruct (_ && _); cbn [length]; f_equal; lia.
    + exists ds. auto.
Qed.

(** X2. What [gradeMCQs] returns hangs together, whatever the answers are:
    there is one detail for every multiple-choice question, in the order of
    the questions and with the server's answer as the expected one; [correct]
    is the number of details flagged correct, and never more than [total]. *)
Theorem gradeMCQs_invariants (qs : list question) (byIndex : gmap nat json) :
  let g := gradeMCQs qs byIndex in
  length (details g) = total g
  /\ correct g = length (List.filter d_isCorrect (details g))
  /\ (correct g <= total g)%nat
  /\ List.map d_id (details g) = List.map q_id (List.filter is_mcq qs)
  /\ List.map d_expected (details g) = List.map q_answer (List.filter is_mcq qs).
Proof.
  cbn zeta. unfold gradeMCQs.
  destruct (grade_fold_any byIndex qs 0 (0%nat, [])) as (ds & -> & Hid & Hex).
  cbn [correct total details fst snd app Nat.add].
  assert (Hl : length ds = length (List.filter is_mcq qs)).
  { rewrite <- (length_map d_id), Hid, length_map. reflexivity. }
  repeat split; try assumption.
  rewrite <- Hl. clear. induction ds as [|d ds IH]; cbn [List.filter length]; [lia |].
  destruct (d_isCorrect d); cbn [length]; lia.
Qed.

Lemma reduce_idx_selected (qs : list question) (a b : list json) (i : nat)
  (acc : nat * list detail) :
  (forall idx, (i <= idx < i + length qs)%nat ->
     JS.opt_prop (a !! idx) (u "selected") = JS.opt_prop (b !! idx) (u "selected")) ->
  reduce_idx (grade_one (answersByIndex a)) qs i acc
  = reduce_idx (grade_one (answersByIndex b)) qs i acc.
Proof.
  revert i acc. induction qs as [|q qs IH]; intros i acc H; cbn [reduce_idx]; [reflexivity |].
  rewrite !grade_one_spec. unfold answered_correctly, detail_of, answered_correctly.
  cbn [fst snd]. rewrite (H i) by (cbn [length]; lia).
  apply IH. intros idx Hi. apply H. cbn [length]. lia.
Qed.

(** X3. Grading reads nothing of an answer but its [selected] field, and
    nothing of the answer list past the last question: two answer lists with
    the same selections at the positions of the questions are graded alike.
    (Answers are matched by position; an id or a flag sent along is not
    looked at.) *)
Theorem grading_reads_selected_only (qs : list question) (a b : list json) :
  (forall idx, (idx < length qs)%nat ->
     JS.opt_prop (a !! idx) (u "selected") = JS.opt_prop (b !! idx) (u "selected")) ->
  gradeMCQs qs (answersByIndex a) = gradeMCQs qs (answersByIndex b).
Proof.
  intros H. unfold gradeMCQs.
  rewrite (reduce_idx_selected qs a b 0 (0%nat, [])); [reflexivity |].
  intros idx Hi. apply H. lia.
Qed.

Lemma grading_reads_selected_only_witness :
  gradeMCQs QUESTIONS
    (answersByIndex [JObj [(u "selected", JStr (u "went"))]; JNull])
  = gradeMCQs QUESTIONS
      (answersByIndex [JObj [(u "id", JStr (u "q9")); (u "isCorrect", JBool false);
                             (u "selected", JStr (u "went"))];
                       JObj [(u "id", JStr (u "q2"))]]).
Proof.
  apply (grading_reads_selected_only QUESTIONS).
  intros idx H. do 11 (destruct idx as [|idx]; [reflexivity |]). cbn in H. lia.
Defined.

(** X4. With the ten multiple-choice questions the server holds, the rounded
    percentage is ten times the number of right answers: one of 0, 10, ...,
    100. *)
Theorem placement_percent (answers : list json) :
  let g := gradeMCQs QUESTIONS (answersByIndex answers) in
  total g = 10%nat
  /\ (correct g <= 10)%nat
  /\ mcqPercent g = Num.of_nat (10 * correct g).
Proof.
  cbn zeta. pose proof (correct_le_total QUESTIONS answers) as Hle.
  rewrite total_QUESTIONS in Hle. split; [reflexivity |]. split; [exact Hle |].
  unfold mcqPercent. rewrite total_QUESTIONS.
  destruct (correct _) as [|[|[|[|[|[|[|[|[|[|[|n]]]]]]]]]]]; try lia; reflexivity.
Qed.

(** X5. A placement without a usable evaluation of the model (no writing
    answer long enough, no API key, or a failed call: the evaluation is then
    null) is decided by the number of right answers alone: up to two give A1,
    three A2, four and five B1, six and seven B2, eight and nine C1, ten C2;
    the confidence is that number over ten and the explanation names it. *)
Theorem placement_level_without_model (h : host) (e : env) (answers : list json) :
  let g := gradeMCQs QUESTIONS (answersByIndex answers) in
  let r := placement_result_of h g JNull in
  (forall w, w = None \/ gemini_key e = false \/ model_unavailable e ->
             evaluate_writing h e w = JNull)
  /\ r_level r = level_by_count (correct g)
  /\ r_confidence r = (Num.of_nat (correct g) / 10)%float
  /\ r_explanation r = JStr (u "MCQ accuracy " ++ decimal_nat (correct g) ++ u "/10").
Proof.
  cbn zeta. split.
  - intros w Hw. unfold evaluate_writing, callGeminiEvaluate.
    destruct w as [[a sample]|]; [| reflexivity].
    destruct Hw as [Hw | [Hk | Hm]]; [discriminate | rewrite Hk; reflexivity |].
    destruct (gemini_key e); [| reflexivity]. cbn [negb].
    unfold model_unavailable in Hm. destruct (gemini e) as [|st b]; [reflexivity |].
    rewrite Hm. reflexivity.
  - pose proof (correct_le_total QUESTIONS answers) as Hle.
    rewrite total_QUESTIONS in Hle.
    unfold placement_result_of, mcqPercent. rewrite total_QUESTIONS.
    cbn [r_level r_confidence r_explanation].
    destruct (correct _) as [|[|[|[|[|[|[|[|[|[|[|n]]]]]]]]]]]; try lia; repeat split.
Qed.

(** ** More on the level map *)







Lemma SFleb_trans (x y z : spec_float) :
  SFleb x y = true -> SFleb y z = true -> SFleb x z = true.
Proof.
  unfold SFleb, SFcompare.
  destruct x as [sx | sx | | sx mx ex], y as [sy | sy | | sy my ey], z as [sz | sz | | sz mz ez];
    try (destruct sx); try (destruct sy); try (destruct sz);
    try discriminate; try reflexivity;
    change (Pos.compare_cont Eq mx my) with (Pos.compare mx my);
    change (Pos.compare_cont Eq my mz) with (Pos.compare my mz);
    change (Pos.compare_cont Eq mx mz) with (Pos.compare mx mz);
    destruct (Z.compare_spec ex ey), (Z.compare_spec ey ez), (Z.compare_spec ex ez);
    try discriminate; try reflexivity; try lia;
    destruct (Pos.compare_spec mx my), (Pos.compare_spec my mz), (Pos.compare_spec mx mz);
    cbn; try discriminate; try reflexivity; try lia.
Qed.

Lemma leb_trans (x y z : float) :
  (x <=? y)%float = true -> (y <=? z)%float = true -> (x <=? z)%float = true.
Proof. rewrite !leb_spec. apply SFleb_trans. Qed.

(** X6. The level map is monotone in the composite: of two sets of scores,
    the one with the composite that is not smaller never gets the lower
    level. *)
Theorem mapScoresToLevel_monotone (h : host) (s s' : scores) :
  (snd (mapScoresToLevel h s) <=? snd (mapScoresToLevel h s'))%float = true ->
  (level_rank (fst (mapScoresToLevel h s)) <= level_rank (fst (mapScoresToLevel h s')))%nat.
Proof.
  unfold mapScoresToLevel. cbn [fst snd].
  generalize (0.4 * score_number h (vocab s) + 0.4 * score_number h (grammar s)
              + 0.2 * score_number h (cohesion s))%float.
  generalize (0.4 * score_number h (vocab s') + 0.4 * score_number h (grammar s')
              + 0.2 * score_number h (cohesion s'))%float.
  intros y x H. unfold level_of.
  assert (T : forall t, (y <=? t)%float = true -> (x <=? t)%float = true).
  { intros t. apply leb_trans, H. }
  destruct (y <=? 20)%float eqn:E1; [rewrite (T _ E1); cbn; lia |].
  destruct (y <=? 35)%float eqn:E2;
    [destruct (x <=? 20)%float; [cbn; lia | rewrite (T _ E2); cbn; lia] |].
  destruct (y <=? 55)%float eqn:E3;
    [destruct (x <=? 20)%float; [cbn; lia |];
     destruct (x <=? 35)%float; [cbn; lia | rewrite (T _ E3); cbn; lia] |].
  destruct (y <=? 75)%float eqn:E4;
    [destruct (x <=? 20)%float; [cbn; lia |];
     destruct (x <=? 35)%float; [cbn; lia |];
     destruct (x <=? 55)%float; [cbn; lia | rewrite (T _ E4); cbn; lia] |].
  destruct (y <=? 90)%float eqn:E5.
  - destruct (x <=? 20)%float; [cbn; lia |].
    destruct (x <=? 35)%float; [cbn; lia |].
    destruct (x <=? 55)%float; [cbn; lia |].
    destruct (x <=? 75)%float; [cbn; lia | rewrite (T _ E5); cbn; lia].
  - destruct (x <=? 20)%float; [cbn; lia |].
    destruct (x <=? 35)%float; [cbn; lia |].
    destruct (x <=? 55)%float; [cbn; lia |].
    destruct (x <=? 75)%float; [cbn; lia |].
    destruct (x <=? 90)%float; cbn; lia.
Qed.

Lemma mapScoresToLevel_monotone_witness :
  (level_rank (fst (mapScoresToLevel Sample.host0 (numeric_scores 20 20 20)))
   <= level_rank (fst (mapScoresToLevel Sample.host0 (numeric_scores 91 20 20))))%nat.
Proof. apply mapScoresToLevel_monotone. reflexivity. Defined.



(** ** More on badges *)

Lemma award_adds (s t : float) (b : jstring) (l : list jstring) :
  exists added,
    award s t b l = l ++ added
    /\ forall x, In x added -> x = b /\ ~ In b l /\ (t <=? s)%float = true.
Proof.
  unfold award. destruct (t <=? s)%float; cbn [andb].
  - destruct (includes b l) eqn:E; cbn [negb].
    + exists []. rewrite app_nil_r. split; [reflexivity | intros x []].
    + exists [b]. split; [reflexivity |]. intros x [<- | []]. repeat split.
      intros H. apply includes_In in H. congruence.
  - exists []. rewrite app_nil_r. split; [reflexivity | intros x []].
Qed.

(** X10. The badge lines of the placement handler only ever append: the
    list they leave is the list they found followed by the new badges, and a
    new badge is one of the four, was not held before, and has its threshold
    reached by the streak.  (A streak that is not a number reaches none.) *)
Theorem award_badges_only_earned (s : float) (l : list jstring) :
  exists added,
    award_badges s l = l ++ added
    /\ forall x, In x added ->
         ~ In x l
         /\ ((x = u "starter" /\ (3 <=? s)%float = true)
             \/ (x = u "bronze" /\ (7 <=? s)%float = true)
             \/ (x = u "silver" /\ (14 <=? s)%float = true)
             \/ (x = u "gold" /\ (30 <=? s)%float = true)).
Proof.
  unfold award_badges.
  destruct (award_adds s 3 (u "starter") l) as (a1 & -> & H1).
  destruct (award_adds s 7 (u "bronze") (l ++ a1)) as (a2 & -> & H2).
  destruct (award_adds s 14 (u "silver") ((l ++ a1) ++ a2)) as (a3 & -> & H3).
  destruct (award_adds s 30 (u "gold") (((l ++ a1) ++ a2) ++ a3)) as (a4 & -> & H4).
  exists (a1 ++ a2 ++ a3 ++ a4). split; [rewrite <- !app_assoc; reflexivity |].
  intros x Hx. rewrite !in_app_iff in Hx.
  destruct Hx as [Hx | [Hx | [Hx | Hx]]].
  - destruct (H1 x Hx) as (-> & Hn & Ht). split; [exact Hn | auto].
  - destruct (H2 x Hx) as (-> & Hn & Ht). split; [| auto].
    intros Hin. apply Hn. apply in_or_app. left. exact Hin.
  - destruct (H3 x Hx) as (-> & Hn & Ht). split; [| auto].
    intros Hin. apply Hn. apply in_or_app. left. apply in_or_app. left. exact Hin.
  - destruct (H4 x Hx) as (-> & Hn & Ht). split; [| auto 6].
    intros Hin. apply Hn. do 3 (apply in_or_app; left). exact Hin.
Qed.

Lemma badges_never_removed_witness :
  In (u "starter")
     (badges (snd (handler_writing Sample.host0
                     (Sample.env_with (Sample.model_says Sample.rating))
                     Sample.writing Cases.veteran)) Sample.uid).
Proof.
  refine (proj1 (badges_never_removed Sample.host0
                   (Sample.env_with (Sample.model_says Sample.rating))
                   Cases.veteran Sample.uid (u "starter") _) Sample.writing).
  vm_compute. left. reflexivity.
Defined.

Lemma streaks_agree_witness :
  inline_streak (today_of Sample.clock) (Some (DateISO 19675)) (Some 5%float)
  = Ok (sr_streak (computeNewStreak Sample.clock (Some (DateISO 19675)) (Some 5%float))).
Proof.
  apply (streaks_agree Sample.clock (Some (DateISO 19675)) (Some 5%float)).
  intros _. reflexivity.
Defined.

Lemma award_badges_spec_witness :
  In (u "bronze") (award_badges 9 [u "starter"]) /\ NoDup (award_badges 9 [u "starter"]).
Proof.
  destruct (award_badges_spec 9 [u "starter"]) as (_ & H7 & _ & _ & _ & Hd & _).
  split; [apply H7; reflexivity |].
  apply Hd. apply NoDup_singleton.
Defined.

(** ** What the handlers do to the store *)

Lemma save_assessment_cases (e : env) (uid : option jstring) (kind : String.string)
  (inp : input) (parsed : json) (st : store) :
  (exists ex, save_assessment e uid kind inp parsed st = (Throw ex, st))
  \/ exists id, doc_ref uid = Ok id /\ parsed <> JNull
       /\ db_get_ok e = true /\ db_set_ok e = true
       /\ ((db_add_ok e = false
            /\ save_assessment e uid kind inp parsed st = (Throw DbError, assessed e id parsed st))
           \/ (db_add_ok e = true
               /\ save_assessment e uid kind inp parsed st
                  = (Ok {| status := 200; sent := CResult (OParsed parsed) |},
                     appended id (history_entry e kind inp (OParsed parsed))
                              (assessed e id parsed st)))).
Proof.
  unfold save_assessment, assessed, merged, appended, history_entry.
  unfold mbind, io_bind, lift, db_get, db_set, db_add.
  destruct (doc_ref uid) as [id|ex]; [| left; eexists; reflexivity].
  destruct (db_get_ok e); [| left; eexists; reflexivity].
  destruct parsed; cbn [JS.prop]; try (left; eexists; reflexivity);
    (destruct (db_set_ok e); [| left; eexists; reflexivity]);
    right; exists id; (repeat split; try discriminate);
    (destruct (db_add_ok e); [right | left]; split; reflexivity).
Qed.

Lemma writing_cases (h : host) (e : env) (req : writing_req) (st : store) :
  (exists r, handler_writing h e req st = (r, st) /\ status r <> 200%N)
  \/ exists id textSample parsed,
       doc_ref (w_uid req) = Ok id /\ w_textSample req = Some textSample
       /\ model_rated h e parsed /\ parsed <> JNull
       /\ db_get_ok e = true /\ db_set_ok e = true
       /\ ((db_add_ok e = false
            /\ handler_writing h e req st
               = ({| status := 500; sent := CError DbError |}, assessed e id parsed st))
           \/ (db_add_ok e = true
               /\ handler_writing h e req st
                  = ({| status := 200; sent := CResult (OParsed parsed) |},
                     appended id (history_entry e "writing" (IWriting textSample) (OParsed parsed))
                              (assessed e id parsed st)))).
Proof.
  unfold handler_writing, respond, writing_body.
  destruct (negb (is_post (w_method req))); [left; eexists; split; [reflexivity | discriminate] |].
  destruct (w_textSample req) as [t|]; [| left; eexists; split; [reflexivity | discriminate]].
  destruct (_ || _); [left; eexists; split; [reflexivity | discriminate] |].
  destruct (gemini e) as [|s b] eqn:Eg; [left; eexists; split; [reflexivity | discriminate] |].
  destruct (negb (http_ok s)) eqn:Eok; [left; eexists; split; [reflexivity | discriminate] |].
  unfold_io.
  destruct (body_json b) as [j|] eqn:Eb; [| left; eexists; split; [reflexivity | discriminate]].
  destruct (normalize WrapRaw (candidate_text h j)) as [p|] eqn:En;
    [| left; eexists; split; [reflexivity | discriminate]].
  destruct (save_assessment_cases e (w_uid req) "writing" (IWriting t) p st)
    as [[ex ->] | (id & Hu & Hp & Hg & Hs & H)].
  - left. eexists. split; [reflexivity | discriminate].
  - right. exists id, t, p. repeat split; try assumption.
    + exists s, b, j. apply negb_false_iff in Eok. auto.
    + destruct H as [[Ha ->] | [Ha ->]]; [left | right]; split; auto.
Qed.

Lemma speaking_cases (h : host) (e : env) (req : speaking_req) (fuel : nat) (st : store)
  (r : response) (st' : store) :
  handler_speaking h e req fuel st = Some (r, st') ->
  (st' = st /\ status r <> 200%N)
  \/ exists id text parsed,
       doc_ref (s_uid req) = Ok id /\ callGemini h e = Ok parsed /\ parsed <> JNull
       /\ db_get_ok e = true /\ db_set_ok e = true
       /\ ((db_add_ok e = false
            /\ r = {| status := 500; sent := CError DbError |}
            /\ st' = assessed e id parsed st)
           \/ (db_add_ok e = true
               /\ r = {| status := 200; sent := CResult (OParsed parsed) |}
               /\ st' = appended id (history_entry e "speaking" (ISpeaking text) (OParsed parsed))
                                 (assessed e id parsed st))).
Proof.
  unfold handler_speaking, speaking_body, respond.
  destruct (negb (is_post (s_method req))); [intros [= <- <-]; left; split; [reflexivity | discriminate] |].
  destruct (negb (s_form_ok req)); [intros [= <- <-]; left; split; [reflexivity | discriminate] |].
  destruct (negb (s_file req)); [intros [= <- <-]; left; split; [reflexivity | discriminate] |].
  destruct (uploadToAssembly e) as [url|];
    [| intros [= <- <-]; left; split; [reflexivity | discriminate]].
  destruct (createTranscription e url) as [job|];
    [| intros [= <- <-]; left; split; [reflexivity | discriminate]].
  destruct (run_poll _ _ _ _ _) as [[polled tr]|]; [| discriminate].
  unfold_io.
  destruct polled as [text|]; [| intros [= <- <-]; left; split; [reflexivity | discriminate]].
  destruct (callGemini h e) as [p|] eqn:Ep;
    [| intros [= <- <-]; left; split; [reflexivity | discriminate]].
  destruct (save_assessment_cases e (s_uid req) "speaking" (ISpeaking text) p st)
    as [[ex ->] | (id & Hu & Hp & Hg & Hs & [[Ha ->] | [Ha ->]])].
  - intros [= <- <-]. left. split; [reflexivity | discriminate].
  - intros [= <- <-]. right. exists id, text, p. repeat split; try assumption. left. auto.
  - intros [= <- <-]. right. exists id, text, p. repeat split; try assumption. right. auto.
Qed.

Lemma save_placement_cases (e : env) (req : placement_req) (answers : list json)
  (r : placement_result) (st : store) :
  (exists ex, save_placement e req answers r st = (Throw ex, st)
              /\ (ex = DbError
                  \/ (ex = RangeError
                      /\ exists id, doc_ref (p_uid req) = Ok id
                           /\ lastAssessmentDateISO (default no_data (users st !! id))
                              = Some DateInvalid)))
  \/ (uid_truthy (p_uid req) = false /\ save_placement e req answers r st = (Ok tt, st))
  \/ exists id new_streak,
       doc_ref (p_uid req) = Ok id
       /\ db_get_ok e = true /\ db_set_ok e = true
       /\ inline_streak (today_of (now e))
            (lastAssessmentDateISO (default no_data (users st !! id)))
            (streak (default no_data (users st !! id))) = Ok new_streak
       /\ ((db_add_ok e = false
            /\ save_placement e req answers r st = (Throw DbError, placed e id r new_streak st))
           \/ (db_add_ok e = true
               /\ save_placement e req answers r st
                  = (Ok tt,
                     appended id (history_entry e "placement"
                                    (IPlacement (p_claimedLevel req) answers) (OPlacement r))
                              (placed e id r new_streak st)))).
Proof.
  unfold save_placement, placed, merged, appended, history_entry.
  destruct (p_uid req) as [[|c i0]|]; try (right; left; split; reflexivity).
  unfold mbind, io_bind, lift, db_get, db_set, db_add.
  destruct (doc_ref (Some (c :: i0))) as [id|ex] eqn:Ed;
    [| left; exists ex; split; [reflexivity | left; eapply doc_ref_throws, Ed]].
  destruct (db_get_ok e); [| left; eexists; split; [reflexivity | auto]].
  destruct (inline_streak _ _ _) as [s|ex] eqn:Es.
  - destruct (db_set_ok e); [| left; eexists; split; [reflexivity | auto]].
    right. right. exists id, s. repeat split; try exact Es.
    destruct (db_add_ok e); [right | left]; split; reflexivity.
  - left. exists ex. split; [reflexivity |]. right.
    unfold inline_streak in Es. destruct (is_today_string _ _); [discriminate |].
    destruct (lastAssessmentDateISO _) as [[d | t |]|] eqn:Ed'; cbn in Es;
      try destruct (Z.eqb _ 1); try discriminate.
    split; [congruence |]. exists id. split; [reflexivity | exact Ed'].
Qed.

Lemma find_writing_throws (answers : list json) (ex : exn) :
  find_writing answers = Throw ex -> ex = TypeError.
Proof.
  induction answers as [|a rest IH]; cbn [find_writing]; [discriminate |].
  destruct a; cbn [JS.prop mbind res_bind]; try congruence;
    try (destruct (JS.strict_eq _ _); [cbn [JS.get JS.truthy] | exact IH]; exact IH).
  destruct (JS.strict_eq _ _); [| exact IH].
  destruct (JS.truthy _); [| exact IH].
  destruct (JS.get _ _) as [[| | |s| |]|]; try congruence.
  destruct (20 <=? _)%nat; [discriminate | exact IH].
Qed.

Lemma placement_cases (h : host) (e : env) (req : placement_req) (st : store) :
  (exists r, handler_placement h e req st = (r, st)
             /\ (r = method_not_allowed \/ r = bad_request "answers required"
                 \/ r = {| status := 500; sent := CError TypeError |}
                 \/ r = {| status := 500; sent := CError DbError |}
                 \/ (r = {| status := 500; sent := CError RangeError |}
                     /\ exists id, doc_ref (p_uid req) = Ok id
                          /\ lastAssessmentDateISO (default no_data (users st !! id))
                             = Some DateInvalid)))
  \/ exists answers w,
       p_answers req = Some (JArr answers) /\ find_writing answers = Ok w
       /\ let r := placement_result_of h (gradeMCQs QUESTIONS (answersByIndex answers))
                                       (evaluate_writing h e w) in
          (uid_truthy (p_uid req) = false
           /\ handler_placement h e req st
              = ({| status := 200; sent := CResult (OPlacement r) |}, st))
          \/ exists id new_streak,
               doc_ref (p_uid req) = Ok id
               /\ db_get_ok e = true /\ db_set_ok e = true
               /\ inline_streak (today_of (now e))
                    (lastAssessmentDateISO (default no_data (users st !! id)))
                    (streak (default no_data (users st !! id))) = Ok new_streak
               /\ ((db_add_ok e = false
                    /\ handler_placement h e req st
                       = ({| status := 500; sent := CError DbError |},
                          placed e id r new_streak st))
                   \/ (db_add_ok e = true
                       /\ handler_placement h e req st
                          = ({| status := 200; sent := CResult (OPlacement r) |},
                             appended id (history_entry e "placement"
                                            (IPlacement (p_claimedLevel req) answers)
                                            (OPlacement r))
                                      (placed e id r new_streak st)))).
Proof.
  unfold handler_placement, respond, placement_body.
  destruct (negb (is_post (p_method req)));
    [left; eexists; split; [reflexivity | auto] |].
  destruct (p_answers req) as [[| | | |answers|]|];
    try (left; eexists; split; [reflexivity | auto]).
  unfold_io. destruct (find_writing answers) as [w|ex] eqn:Ew.
  - match goal with |- context [save_placement e req answers ?R st] =>
      destruct (save_placement_cases e req answers R st)
        as [(ex & -> & Hex) | [[Hu ->] | (id & s & Hu & Hg & Hs & Hi & [[Ha ->] | [Ha ->]])]]
    end.
    + left. eexists. split; [reflexivity |].
      destruct Hex as [-> | [-> Hd]]; auto 6.
    + right. exists answers, w. split; [reflexivity |]. split; [exact Ew |]. cbn zeta. left. auto.
    + right. exists answers, w. split; [reflexivity |]. split; [exact Ew |]. cbn zeta.
      right. exists id, s. repeat split; auto.
    + right. exists answers, w. split; [reflexivity |]. split; [exact Ew |]. cbn zeta.
      right. exists id, s. repeat split; auto.
  - apply find_writing_throws in Ew as ->. left. eexists. split; [reflexivity | auto].
Qed.

Lemma touches_only_refl (uid : option jstring) (st : store) : touches_only uid st st.
Proof.
  split; [reflexivity |]. exists []. rewrite app_nil_r. repeat split; [cbn; lia | intros x []].
Qed.

Lemma touches_only_merged (id : jstring) (w : userdoc -> userdoc) (st : store) :
  touches_only (Some id) st (merged id w st).
Proof.
  split.
  - intros i Hi. cbn [merged users]. apply lookup_insert_ne. congruence.
  - exists []. cbn [merged assessments]. rewrite app_nil_r.
    repeat split; [cbn; lia | intros x []].
Qed.

Lemma touches_only_appended (id : jstring) (w : userdoc -> userdoc) (x : entry) (st : store) :
  touches_only (Some id) st (appended id x (merged id w st)).
Proof.
  split.
  - intros i Hi. cbn [appended merged users]. apply lookup_insert_ne. congruence.
  - exists [(id, x)]. cbn [appended merged assessments].
    repeat split; [cbn; lia | intros y [<- | []]; reflexivity].
Qed.

Lemma doc_key_Ok (uid : option jstring) (id : jstring) :
  doc_ref uid = Ok id -> doc_key uid = Some id.
Proof. unfold doc_key. intros ->. reflexivity. Qed.

(** X12. No handler touches a document other than the one that the user id
    of the request names (for an id without a slash, the document of that
    id), and none rewrites the history: it grows by at most one entry, filed
    under that document. *)
Theorem handlers_touch_one_user (h : host) (e : env) (st : store) :
  (forall req, touches_only (doc_key (w_uid req)) st (snd (handler_writing h e req st)))
  /\ (forall req, touches_only (doc_key (p_uid req)) st (snd (handler_placement h e req st)))
  /\ (forall req fuel r st', handler_speaking h e req fuel st = Some (r, st') ->
                             touches_only (doc_key (s_uid req)) st st')
  /\ (forall id, id <> [] -> ~ In slash id -> doc_key (Some id) = Some id).
Proof.
  split; [| split; [| split]].
  - intros req.
    destruct (writing_cases h e req st)
      as [(r & -> & _) | (id & t & p & Hu & _ & _ & _ & _ & _ & [[_ ->] | [_ ->]])];
      cbn [snd]; [apply touches_only_refl | |]; rewrite (doc_key_Ok _ _ Hu);
      [apply touches_only_merged | apply touches_only_appended].
  - intros req.
    destruct (placement_cases h e req st)
      as [(r & -> & _) | (answers & w & _ & _ & [[_ ->] | (id & s & Hu & _ & _ & _ & [[_ ->] | [_ ->]])])];
      cbn [snd]; [apply touches_only_refl | apply touches_only_refl | |];
      rewrite (doc_key_Ok _ _ Hu); [apply touches_only_merged | apply touches_only_appended].
  - intros req fuel r st' H.
    destruct (speaking_cases h e req fuel st r st' H)
      as [[-> _] | (id & t & p & Hu & _ & _ & _ & _ & [(_ & _ & ->) | (_ & _ & ->)])];
      [apply touches_only_refl | |]; rewrite (doc_key_Ok _ _ Hu);
      [apply touches_only_merged | apply touches_only_appended].
  - intros id Hid H. apply doc_key_Ok, doc_ref_plain; assumption.
Qed.

Lemma canonical_merged (id : jstring) (w : userdoc -> userdoc) (st : store) :
  (forall d, exists day, lastAssessmentDateISO (w d) = Some (DateISO day)) ->
  canonical_dates st -> canonical_dates (merged id w st).
Proof.
  intros Hw H i d. cbn [merged users]. destruct (decide (id = i)) as [-> | Hne].
  - rewrite lookup_insert_eq. intros [= <-].
    destruct (Hw (default no_data (users st !! i))) as [day ->]. exact I.
  - rewrite lookup_insert_ne by exact Hne. apply H.
Qed.

Lemma canonical_assessed (e : env) (id : jstring) (parsed : json) (st : store) :
  canonical_dates st -> canonical_dates (assessed e id parsed st).
Proof. apply canonical_merged. intros d. eexists. reflexivity. Qed.

Lemma canonical_placed (e : env) (id : jstring) (r : placement_result) (s : float) (st : store) :
  canonical_dates st -> canonical_dates (placed e id r s st).
Proof. apply canonical_merged. intros d. eexists. reflexivity. Qed.

(** X13. The handlers store the date of an assessment in one form only, the
    ten characters of the day.  A store in which every date has that form
    keeps it through every request, and on such a store the date arithmetic
    of the placement handler, which has no guard of its own, never throws. *)
Theorem dates_stay_canonical (h : host) (e : env) (st : store) :
  canonical_dates st ->
  (forall req, canonical_dates (snd (handler_writing h e req st)))
  /\ (forall req, canonical_dates (snd (handler_placement h e req st)))
  /\ (forall req fuel r st', handler_speaking h e req fuel st = Some (r, st') ->
                             canonical_dates st')
  /\ (forall req, sent (fst (handler_placement h e req st)) <> CError RangeError).
Proof.
  intros Hc. split; [| split; [| split]].
  - intros req.
    destruct (writing_cases h e req st)
      as [(r & -> & _) | (id & t & p & _ & _ & _ & _ & _ & _ & [[_ ->] | [_ ->]])];
      cbn [snd]; [exact Hc | apply canonical_assessed, Hc |].
    intros i d. cbn [appended users]. apply canonical_assessed, Hc.
  - intros req.
    destruct (placement_cases h e req st)
      as [(r & -> & _) | (answers & w & _ & _ & [[_ ->] | (id & s & _ & _ & _ & _ & [[_ ->] | [_ ->]])])];
      cbn [snd]; [exact Hc | exact Hc | apply canonical_placed, Hc |].
    intros i d. cbn [appended users]. apply canonical_placed, Hc.
  - intros req fuel r st' H.
    destruct (speaking_cases h e req fuel st r st' H)
      as [[-> _] | (id & t & p & _ & _ & _ & _ & _ & [(_ & _ & ->) | (_ & _ & ->)])];
      [exact Hc | apply canonical_assessed, Hc |].
    intros i d. cbn [appended users]. apply canonical_assessed, Hc.
  - intros req.
    destruct (placement_cases h e req st)
      as [(r & -> & Hr) | (answers & w & _ & _ & [[_ ->] | (id & s & _ & _ & _ & _ & [[_ ->] | [_ ->]])])];
      cbn [fst sent]; try discriminate.
    destruct Hr as [-> | [-> | [-> | [-> | (-> & id & Hu & Hd)]]]]; try discriminate.
    intros _. specialize (Hc id). destruct (users st !! id) as [d|]; [| discriminate].
    specialize (Hc d eq_refl). change (lastAssessmentDateISO d = Some DateInvalid) in Hd.
    rewrite Hd in Hc. exact Hc.
Qed.

Lemma dates_stay_canonical_witness :
  canonical_dates
    (snd (handler_placement Sample.host0 (Sample.env_with NoReply) Sample.placement
                            Sample.regular)).
Proof.
  refine (proj1 (proj2 (dates_stay_canonical Sample.host0 (Sample.env_with NoReply)
                          Sample.regular _)) Sample.placement).
  intros id d H. cbn [Sample.regular users] in H.
  apply lookup_singleton_Some in H as [_ <-]. exact I.
Defined.

Lemma computeNewStreak_today (now : Z) (prev : option stored_date) (p : option float) :
  sr_todayISO (computeNewStreak now prev p) = today_of now.
Proof.
  unfold computeNewStreak. destruct prev as [d|]; [| reflexivity].
  destruct (iso_day d); [| reflexivity].
  destruct (Z.eqb _ 0); [reflexivity |]. destruct (Z.eqb _ 1); reflexivity.
Qed.

Lemma assessed_lookup (e : env) (id : jstring) (parsed : json) (st : store) :
  users (assessed e id parsed st) !! id
  = Some (write_progress parsed (now e) (today_of (now e))
            (sr_streak (computeNewStreak (now e)
                          (lastAssessmentDateISO (default no_data (users st !! id)))
                          (streak (default no_data (users st !! id)))))
            (default no_data (users st !! id))).
Proof.
  unfold assessed, merged. cbn [users]. rewrite lookup_insert_eq, computeNewStreak_today.
  reflexivity.
Qed.

(** X14. The answer 200 of the writing handler means that everything was
    saved: the document that the user id names (for an id without a slash,
    the document of that id) carries today's date, the level the model named
    ("Unknown" when it named none) and its confidence (0 when it gave none),
    and the history has one more entry, of type "writing", with the result
    that was sent.  With any other answer the history is as it was, and with
    any other answer than 200 and 500 so is the whole store. *)
Theorem writing_status_and_store (h : host) (e : env) (req : writing_req) (st : store) :
  let r := fst (handler_writing h e req st) in
  let st' := snd (handler_writing h e req st) in
  (status r = 200%N ->
     exists id textSample parsed d,
       doc_ref (w_uid req) = Ok id
       /\ (forall uid, w_uid req = Some uid -> ~ In slash uid -> id = uid)
       /\ w_textSample req = Some textSample
       /\ sent r = CResult (OParsed parsed)
       /\ assessments st'
          = assessments st ++ [(id, {| e_type := u "writing"; e_input := IWriting textSample;
                                       e_result := OParsed parsed; e_createdAt := now e |})]
       /\ users st' !! id = Some d
       /\ lastAssessmentDateISO d = Some (DateISO (today_of (now e)))
       /\ lastAssessmentAt d = Some (now e)
       /\ level_ d = JS.or (JS.get parsed (u "level")) (Some (JStr (u "Unknown")))
       /\ levelConfidence d = JS.nullish (JS.get parsed (u "confidence")) (Some (JNum 0)))
  /\ (status r <> 200%N -> assessments st' = assessments st)
  /\ (status r <> 200%N -> status r <> 500%N -> st' = st).
Proof.
  cbn zeta.
  destruct (writing_cases h e req st)
    as [(r & -> & Hr) | (id & t & p & Hu & Ht & _ & _ & _ & _ & [[_ ->] | [_ ->]])];
    cbn [fst snd status sent].
  - split; [intros; contradiction |]. split; reflexivity.
  - split; [discriminate |]. split; [reflexivity | intros _ H; contradiction].
  - split; [| split; intros H; contradiction].
    intros _. eexists id, t, p, _. split; [exact Hu |]. split.
    { intros uid Eu Hs. rewrite Eu in Hu. rewrite doc_ref_plain in Hu; [congruence | | exact Hs].
      intros ->. discriminate. }
    split; [exact Ht |].
    split; [reflexivity |]. split; [reflexivity |].
    split; [cbn [appended users]; apply assessed_lookup |]. repeat split.
Qed.

Lemma writing_status_and_store_witness :
  let run := handler_writing Sample.host0 (Sample.env_with (Sample.model_says Sample.rating))
                             Sample.writing Sample.regular in
  length (assessments (snd run)) = 1%nat.
Proof.
  destruct (writing_status_and_store Sample.host0
              (Sample.env_with (Sample.model_says Sample.rating)) Sample.writing Sample.regular)
    as [H _].
  destruct H as (id & t & p & d & _ & _ & _ & _ & E & _); [reflexivity |].
  cbn zeta. rewrite E. reflexivity.
Defined.




(** X16. Nothing is written unless the store takes the merge: when it
    refuses the read or the merge, every handler leaves the store as it was,
    and the writing and the speaking handler do not answer 200. *)
Theorem nothing_written_without_merge (h : host) (e : env) (st : store) :
  db_get_ok e = false \/ db_set_ok e = false ->
  (forall req, snd (handler_writing h e req st) = st
               /\ status (fst (handler_writing h e req st)) <> 200%N)
  /\ (forall req, snd (handler_placement h e req st) = st)
  /\ (forall req fuel r st', handler_speaking h e req fuel st = Some (r, st') ->
                             st' = st /\ status r <> 200%N).
Proof.
  intros Hdb. split; [| split].
  - intros req.
    destruct (writing_cases h e req st)
      as [(r & -> & Hr) | (id & t & p & _ & _ & _ & _ & Hg & Hs & _)].
    + split; [reflexivity | exact Hr].
    + destruct Hdb; congruence.
  - intros req.
    destruct (placement_cases h e req st)
      as [(r & -> & _) | (answers & w & _ & _ & [[_ ->] | (id & s & _ & Hg & Hs & _)])];
      [reflexivity | reflexivity |].
    destruct Hdb; congruence.
  - intros req fuel r st' H.
    destruct (speaking_cases h e req fuel st r st' H)
      as [[-> Hr] | (id & t & p & _ & _ & _ & Hg & Hs & _)].
    + split; [reflexivity | exact Hr].
    + destruct Hdb; congruence.
Qed.

Lemma nothing_written_without_merge_witness :
  snd (handler_placement Sample.host0 Cases.merge_refused Sample.placement Sample.regular)
  = Sample.regular.
Proof.
  refine (proj1 (proj2 (nothing_written_without_merge Sample.host0 Cases.merge_refused
                          Sample.regular _)) Sample.placement).
  right. reflexivity.
Defined.



(** X18. What the placement handler stores is what it sends: after the
    answer 200 to a request whose user id names a document, that document
    holds the level and the confidence of the result in the response and
    today's date, and the one new history entry, of type "placement", holds
    that result with the answers and the claimed level of the request. *)
Theorem placement_stores_result (h : host) (e : env) (req : placement_req) (st : store)
  (id : jstring) :
  doc_ref (p_uid req) = Ok id ->
  let run := handler_placement h e req st in
  status (fst run) = 200%N ->
  exists r answers d,
    sent (fst run) = CResult (OPlacement r)
    /\ p_answers req = Some (JArr answers)
    /\ users (snd run) !! id = Some d
    /\ level_ d = Some (JStr (level_name (r_level r)))
    /\ levelConfidence d = Some (JNum (r_confidence r))
    /\ lastAssessmentDateISO d = Some (DateISO (today_of (now e)))
    /\ assessments (snd run)
       = assessments st
         ++ [(id, {| e_type := u "placement";
                     e_input := IPlacement (p_claimedLevel req) answers;
                     e_result := OPlacement r; e_createdAt := now e |})].
Proof.
  intros Hu. cbn zeta.
  destruct (placement_cases h e req st)
    as [(r & -> & Hr) | (answers & w & Ha & _ & [[Hn _] | (i & s & Hi & _ & _ & _ & [[_ ->] | [_ ->]])])].
  - destruct Hr as [-> | [-> | [-> | [-> | [-> _]]]]]; discriminate.
  - apply doc_ref_truthy in Hu. congruence.
  - discriminate.
  - intros _. assert (i = id) as -> by congruence.
    eexists _, answers, _. cbn [fst snd sent appended placed merged users assessments].
    split; [reflexivity |]. split; [exact Ha |].
    split; [apply lookup_insert_eq |]. repeat split.
Qed.

Lemma placement_stores_result_witness :
  let run := handler_placement Sample.host0 (Sample.env_with NoReply) Sample.placement
                               Sample.regular in
  exists r d,
    sent (fst run) = CResult (OPlacement r)
    /\ users (snd run) !! Sample.uid = Some d
    /\ level_ d = Some (JStr (level_name (r_level r)))
    /\ length (assessments (snd run)) = 1%nat.
Proof.
  destruct (placement_stores_result Sample.host0 (Sample.env_with NoReply) Sample.placement
              Sample.regular Sample.uid) as (r & answers & d & H1 & _ & H2 & H3 & _ & _ & H4).
  - reflexivity.
  - vm_compute. reflexivity.
  - cbn zeta. exists r, d. rewrite H4. repeat split; assumption.
Defined.

Lemma find_writing_app (pre post : list json) :
  find_writing pre = Ok None -> find_writing (pre ++ post) = find_writing post.
Proof.
  induction pre as [|a pre IH]; [reflexivity |]. cbn [app find_writing].
  destruct (JS.prop (Some a) (u "type")) as [ty|]; cbn [mbind res_bind]; [| discriminate].
  destruct (JS.strict_eq ty _); [| exact IH].
  destruct (JS.truthy _); [| exact IH].
  destruct (JS.get a _) as [[| | |s| |]|]; try discriminate.
  destruct (20 <=? _)%nat; [discriminate | exact IH].
Qed.

(** X19. A null among the answers, with no writing answer of twenty
    characters or more before it, makes the search for the writing answer
    throw: the placement request is answered 500 and nothing is written. *)
Theorem placement_null_answer (h : host) (e : env) (req : placement_req) (st : store)
  (pre post : list json) :
  is_post (p_method req) = true ->
  p_answers req = Some (JArr (pre ++ JNull :: post)) ->
  find_writing pre = Ok None ->
  handler_placement h e req st = ({| status := 500; sent := CError TypeError |}, st).
Proof.
  intros Hm Ha Hp.
  unfold handler_placement, respond, placement_body. rewrite Hm, Ha. cbn [negb].
  unfold_io. rewrite (find_writing_app pre _ Hp). reflexivity.
Qed.

Lemma placement_null_answer_witness :
  handler_placement Sample.host0 (Sample.env_with NoReply)
    {| p_method := u "POST"; p_uid := Some Sample.uid; p_claimedLevel := None;
       p_answers := Some (JArr [JObj [(u "selected", JStr (u "went"))]; JNull]) |}
    Sample.regular
  = ({| status := 500; sent := CError TypeError |}, Sample.regular).
Proof.
  apply (placement_null_answer Sample.host0 (Sample.env_with NoReply) _ Sample.regular
           [JObj [(u "selected", JStr (u "went"))]] []); reflexivity.
Defined.

(** X20. The placement handler answers 200, 405, 400 or 500, and its 500 is
    never a failure of the model: it comes from an answer whose fields cannot
    be read, from the store refusing a call, or from a stored date that
    cannot be read. *)
Theorem placement_failures (h : host) (e : env) (req : placement_req) (st : store) :
  let r := fst (handler_placement h e req st) in
  (status r = 200%N /\ exists result, sent r = CResult (OPlacement result))
  \/ r = method_not_allowed
  \/ r = bad_request "answers required"
  \/ (status r = 500%N
      /\ (sent r = CError TypeError \/ sent r = CError DbError \/ sent r = CError RangeError)).
Proof.
  cbn zeta.
  destruct (placement_cases h e req st)
    as [(r & -> & Hr) | (answers & w & _ & _ & [[_ ->] | (id & s & _ & _ & _ & _ & [[_ ->] | [_ ->]])])];
    cbn [fst].
  - destruct Hr as [-> | [-> | [-> | [-> | [-> _]]]]]; auto 8.
  - left. split; [reflexivity | eexists; reflexivity].
  - right. right. right. auto.
  - left. split; [reflexivity | eexists; reflexivity].
Qed.

(** X21. The writing answer is found by its type, wherever it stands in the
    list: the first answer of type "writing" whose sample is a string of
    twenty characters or more after trimming is the one selected, with its
    sample as it was sent. *)
Theorem find_writing_first (pre post : list json) (a : json) (s : jstring) :
  find_writing pre = Ok None ->
  JS.get a (u "type") = Some (JStr (u "writing")) ->
  JS.get a (u "writingSample") = Some (JStr s) ->
  (20 <= length (Str.trim s))%nat ->
  find_writing (pre ++ a :: post) = Ok (Some (a, s)).
Proof.
  intros Hp Ht Hs Hl. rewrite (find_writing_app pre _ Hp). cbn [find_writing].
  assert (Hprop : JS.prop (Some a) (u "type") = Ok (JS.get a (u "type"))).
  { destruct a; try reflexivity. discriminate. }
  rewrite Hprop, Ht. cbn [mbind res_bind]. rewrite (proj2 (strict_eq_string _ _) eq_refl).
  rewrite Hs. assert (Hne : s <> []) by (intros ->; cbn in Hl; lia).
  destruct s as [|c s]; [contradiction |]. cbn [JS.truthy].
  apply Nat.leb_le in Hl. rewrite Hl. reflexivity.
Qed.

Lemma find_writing_first_witness :
  find_writing Sample.answers
  = Ok (Some (JObj [(u "type", JStr (u "writing"));
                    (u "writingSample", JStr (u "I have lived in Lima for ten years."))],
              u "I have lived in Lima for ten years.")).
Proof.
  apply (find_writing_first (take 5 Sample.answers) []); try reflexivity.
  apply Nat.leb_le. reflexivity.
Defined.

Lemma same_day_streak (now1 now2 : Z) (s1 : float) :
  sr_streak (computeNewStreak now2 (Some (DateISO (today_of now1))) (Some s1))
  = if today_of now2 - today_of now1 =? 0 then num_or s1 1
    else if today_of now2 - today_of now1 =? 1 then (num_or s1 0 + 1)%float
    else 1%float.
Proof.
  unfold computeNewStreak. cbn [iso_day default]. rewrite round_div_days.
  destruct (_ =? 0); [reflexivity |]. destruct (_ =? 1); reflexivity.
Qed.

(** X22. Two writing assessments that both succeed, one after the other,
    with user ids that name the same document (as two requests of one user
    do).  Each appends one history entry.  When the second comes on the day
    of the first, the streak stays as the first left it (1 if that was
    zero); when it comes on the next day, the streak is one more; on any
    other day it is 1 again. *)
Theorem writing_again (h : host) (e1 e2 : env) (req1 req2 : writing_req) (st : store)
  (id : jstring) :
  doc_ref (w_uid req1) = Ok id -> doc_ref (w_uid req2) = Ok id ->
  let run1 := handler_writing h e1 req1 st in
  let run2 := handler_writing h e2 req2 (snd run1) in
  status (fst run1) = 200%N -> status (fst run2) = 200%N ->
  exists s1 s2,
    (streak <$> users (snd run1) !! id) = Some (Some s1)
    /\ (streak <$> users (snd run2) !! id) = Some (Some s2)
    /\ length (assessments (snd run2)) = (2 + length (assessments st))%nat
    /\ (today_of (now e2) = today_of (now e1) -> s2 = num_or s1 1)
    /\ (today_of (now e2) = today_of (now e1) + 1 -> s2 = (num_or s1 0 + 1)%float)
    /\ (today_of (now e2) <> today_of (now e1) ->
        today_of (now e2) <> today_of (now e1) + 1 -> s2 = 1%float).
Proof.
  intros Hu1 Hu2. cbn zeta.
  destruct (writing_cases h e1 req1 st)
    as [(r & -> & Hr) | (i1 & t1 & p1 & Hi1 & _ & _ & _ & _ & _ & [[_ ->] | [_ ->]])];
    cbn [fst snd status]; [intros H; contradiction | discriminate |].
  intros _. assert (i1 = id) as -> by congruence.
  set (st1 := appended id _ (assessed e1 id p1 st)).
  destruct (writing_cases h e2 req2 st1)
    as [(r & -> & Hr) | (i2 & t2 & p2 & Hi2 & _ & _ & _ & _ & _ & [[_ ->] | [_ ->]])];
    cbn [fst snd status]; [intros H; contradiction | discriminate |].
  intros _. assert (i2 = id) as -> by congruence.
  assert (E1 : users st1 !! id
               = Some (write_progress p1 (now e1) (today_of (now e1))
                         (sr_streak (computeNewStreak (now e1)
                            (lastAssessmentDateISO (default no_data (users st !! id)))
                            (streak (default no_data (users st !! id)))))
                         (default no_data (users st !! id))))
    by (unfold st1; cbn [appended users]; apply assessed_lookup).
  eexists _, _. split; [rewrite E1; reflexivity |].
  split; [cbn [appended users]; rewrite assessed_lookup, E1; reflexivity |].
  split; [unfold st1; cbn [appended assessed merged assessments]; rewrite !length_app; cbn; lia |].
  cbn [default Datatypes.id write_progress lastAssessmentDateISO streak].
  rewrite same_day_streak.
  split; [| split].
  - intros ->. rewrite Z.sub_diag. reflexivity.
  - intros ->. replace (today_of (now e1) + 1 - today_of (now e1)) with 1 by lia. reflexivity.
  - intros H0 H1. destruct (Z.eqb_spec (today_of (now e2) - today_of (now e1)) 0); [lia |].
    destruct (Z.eqb_spec (today_of (now e2) - today_of (now e1)) 1); [lia | reflexivity].
Qed.

Lemma writing_again_witness :
  let e := Sample.env_with (Sample.model_says Sample.rating) in
  let run1 := handler_writing Sample.host0 e Sample.writing Sample.regular in
  let run2 := handler_writing Sample.host0 e Sample.writing (snd run1) in
  exists s1 s2,
    (streak <$> users (snd run1) !! Sample.uid) = Some (Some s1)
    /\ (streak <$> users (snd run2) !! Sample.uid) = Some (Some s2)
    /\ s2 = num_or s1 1
    /\ length (assessments (snd run2)) = 2%nat.
Proof.
  destruct (writing_again Sample.host0 (Sample.env_with (Sample.model_says Sample.rating))
              (Sample.env_with (Sample.model_says Sample.rating))
              Sample.writing Sample.writing Sample.regular Sample.uid)
    as (s1 & s2 & H1 & H2 & H3 & H4 & _).
  - reflexivity.
  - reflexivity.
  - vm_compute. reflexivity.
  - vm_compute. reflexivity.
  - cbn zeta. exists s1, s2. split; [exact H1 |]. split; [exact H2 |].
    split; [apply H4; reflexivity | exact H3].
Defined.

(** ** More on cleaning the reply *)

Lemma remove_from_skip (ci : bool) (pat : jstring) (k : nat) (s : jstring) :
  Str.remove_from ci pat k s = Str.remove_from ci pat 0 (drop k s).
Proof.
  revert k. induction s as [|c s IH]; intros [|k]; try reflexivity.
  cbn [Str.remove_from drop]. apply IH.
Qed.

Lemma fence_leading (s : jstring) :
  Str.starts_with false Str.fence s = true <-> (3 <= leading_ticks s)%nat.
Proof.
  change Str.fence with [96; 96; 96]%N.
  destruct s as [|a [|b [|c s]]]; cbn [Str.starts_with Str.char_eq leading_ticks];
    repeat (match goal with |- context [(?x =? ?y)%N] => destruct (N.eqb_spec x y); subst end;
            cbn [andb leading_ticks]);
    split; intros; try discriminate; try reflexivity; try lia; congruence.
Qed.

Lemma remove_fence_leading (s : jstring) :
  (leading_ticks s < 3)%nat ->
  leading_ticks (Str.remove_from false Str.fence 0 s) = leading_ticks s.
Proof.
  induction s as [|c s IH]; [reflexivity |]. intros H.
  cbn [Str.remove_from].
  destruct (Str.starts_with false Str.fence (c :: s)) eqn:E;
    [apply fence_leading in E; lia |].
  cbn [leading_ticks] in *. destruct (c =? 96)%N; [| reflexivity].
  rewrite IH by lia. reflexivity.
Qed.

Lemma remove_fence_none (s : jstring) :
  contains false Str.fence (Str.remove_from false Str.fence 0 s) = false.
Proof.
  remember (length s) as n eqn:Hn. revert s Hn.
  induction n as [n IH] using lt_wf_ind. intros s Hn.
  destruct s as [|c s]; [reflexivity |]. cbn [Str.remove_from].
  destruct (Str.starts_with false Str.fence (c :: s)) eqn:E.
  - rewrite remove_from_skip. apply (IH (length (drop (length Str.fence - 1) s))); [| reflexivity].
    subst n. rewrite length_drop. cbn. lia.
  - cbn [contains]. rewrite (IH (length s)) by (subst n; cbn; lia || reflexivity).
    rewrite orb_false_r.
    destruct (Str.starts_with false Str.fence (c :: Str.remove_from false Str.fence 0 s)) eqn:E';
      [| reflexivity].
    apply fence_leading in E'.
    assert (Hs : (leading_ticks (c :: s) < 3)%nat).
    { destruct (Nat.lt_ge_cases (leading_ticks (c :: s)) 3) as [Hlt | Hge]; [exact Hlt |].
      apply fence_leading in Hge. congruence. }
    cbn [leading_ticks] in E', Hs. destruct (c =? 96)%N; [| lia].
    rewrite remove_fence_leading in E' by lia. lia.
Qed.

Lemma contains_suffix (ci : bool) (pat a b : jstring) :
  contains ci pat (a ++ b) = false -> contains ci pat b = false.
Proof.
  induction a as [|x a IH]; [tauto |]. cbn [app]. intros H. apply IH.
  eapply contains_tail, H.
Qed.

Lemma trim_start_suffix (s : jstring) : exists a, s = a ++ Str.trim_start s.
Proof.
  induction s as [|c s [a IH]]; [exists []; reflexivity |]. cbn [Str.trim_start].
  destruct (Str.is_space c); [| exists []; reflexivity].
  exists (c :: a). cbn [app]. f_equal. exact IH.
Qed.

Lemma trim_end_prefix (s : jstring) : exists b, s = Str.trim_end s ++ b.
Proof.
  unfold Str.trim_end. destruct (trim_start_suffix (rev s)) as [a Ha].
  exists (rev a). rewrite <- rev_app_distr, <- Ha, rev_involutive. reflexivity.
Qed.

Lemma trim_start_head (s : jstring) (c : N) (r : jstring) :
  Str.trim_start s = c :: r -> Str.is_space c = false.
Proof.
  induction s as [|x s IH]; [discriminate |]. cbn [Str.trim_start].
  destruct (Str.is_space x) eqn:E; [exact IH | intros [= <- _]; exact E].
Qed.

Lemma trim_end_last (s : jstring) (r : jstring) (c : N) :
  Str.trim_end s = r ++ [c] -> Str.is_space c = false.
Proof.
  unfold Str.trim_end. intros H. apply (f_equal (@rev N)) in H.
  rewrite rev_involutive, rev_app_distr in H. cbn in H. eapply trim_start_head, H.
Qed.

Lemma trim_head (s : jstring) (c : N) (r : jstring) :
  Str.trim s = c :: r -> Str.is_space c = false.
Proof.
  unfold Str.trim. intros H. destruct (trim_end_prefix (Str.trim_start s)) as [b Hb].
  rewrite H in Hb. cbn [app] in Hb. eapply trim_start_head, Hb.
Qed.

Lemma trim_start_fixed (s : jstring) :
  (forall c r, s = c :: r -> Str.is_space c = false) -> Str.trim_start s = s.
Proof.
  destruct s as [|c s]; [reflexivity |]. intros H. cbn [Str.trim_start].
  rewrite (H c s eq_refl). reflexivity.
Qed.

Lemma trim_end_fixed (s : jstring) :
  (forall r c, s = r ++ [c] -> Str.is_space c = false) -> Str.trim_end s = s.
Proof.
  intros H. unfold Str.trim_end. rewrite trim_start_fixed; [apply rev_involutive |].
  intros c r E. apply (H (rev r) c). apply (f_equal (@rev N)) in E.
  rewrite rev_involutive in E. exact E.
Qed.

Lemma trim_fixed (s : jstring) : Str.trim (Str.trim s) = Str.trim s.
Proof.
  unfold Str.trim at 1. rewrite trim_start_fixed by apply trim_head.
  apply trim_end_fixed. unfold Str.trim. apply trim_end_last.
Qed.

Lemma clean_In (s : jstring) (x : N) : In x (Str.clean s) -> In x s.
Proof.
  unfold Str.clean, Str.trim. fold (strip s). intros H.
  apply strip_In, trim_start_In, trim_end_In, H.
Qed.

Lemma clean_no_fence (raw : jstring) : contains false Str.fence (Str.clean raw) = false.
Proof.
  unfold Str.clean, Str.trim, Str.remove_all.
  set (t := Str.remove_from false Str.fence 0 _).
  assert (Ht : contains false Str.fence t = false) by apply remove_fence_none.
  destruct (trim_start_suffix t) as [a Ha].
  destruct (trim_end_prefix (Str.trim_start t)) as [b Hb].
  rewrite Ha in Ht. apply contains_suffix in Ht. rewrite Hb in Ht.
  eapply contains_app_l, Ht.
Qed.

(** X23. What the clean-up of the model's text leaves: no run of three
    backquotes anywhere, no white space at either end, and no character that
    was not in the text; and cleaning a cleaned text again changes nothing. *)
Theorem clean_output (raw : jstring) :
  contains false Str.fence (Str.clean raw) = false
  /\ (forall c r, Str.clean raw = c :: r -> Str.is_space c = false)
  /\ (forall r c, Str.clean raw = r ++ [c] -> Str.is_space c = false)
  /\ (forall x, In x (Str.clean raw) -> In x raw)
  /\ Str.clean (Str.clean raw) = Str.clean raw.
Proof.
  split; [apply clean_no_fence |]. split; [| split; [| split]].
  - intros c r. unfold Str.clean. apply trim_head.
  - intros r c. unfold Str.clean, Str.trim. apply trim_end_last.
  - intros x. apply clean_In.
  - unfold Str.clean at 1. fold (strip (Str.clean raw)).
    rewrite strip_absent by apply clean_no_fence.
    unfold Str.clean. apply trim_fixed.
Qed.

Lemma from_first_Some (c : N) (s t : jstring) :
  Str.from_first c s = Some t -> exists a r, s = a ++ c :: r /\ t = c :: r /\ ~ In c a.
Proof.
  induction s as [|x s IH]; [discriminate |]. cbn [Str.from_first].
  destruct (N.eqb_spec x c) as [-> | Hne].
  - intros [= <-]. exists [], s. repeat split. intros [].
  - intros H. destruct (IH H) as (a & r & -> & -> & Ha). exists (x :: a), r.
    repeat split. intros [E | E]; [congruence | contradiction].
Qed.

Lemma from_first_None (c : N) (s : jstring) : Str.from_first c s = None -> ~ In c s.
Proof.
  induction s as [|x s IH]; [intros _ [] |]. cbn [Str.from_first].
  destruct (N.eqb_spec x c) as [-> | Hne]; [discriminate |].
  intros H [E | E]; [congruence | exact (IH H E)].
Qed.

Lemma through_last_None (c : N) (s : jstring) : Str.through_last c s = None -> ~ In c s.
Proof.
  induction s as [|x s IH]; [intros _ [] |]. cbn [Str.through_last].
  destruct (Str.through_last c s); [discriminate |].
  destruct (N.eqb_spec x c) as [-> | Hne]; [discriminate |].
  intros _ [E | E]; [congruence | exact (IH eq_refl E)].
Qed.

Lemma through_last_Some (c : N) (s p : jstring) :
  Str.through_last c s = Some p -> exists a b, s = p ++ b /\ p = a ++ [c] /\ ~ In c b.
Proof.
  revert p. induction s as [|x s IH]; [discriminate |]. intros p. cbn [Str.through_last].
  destruct (Str.through_last c s) as [q|] eqn:E.
  - intros [= <-]. destruct (IH q eq_refl) as (a & b & -> & -> & Hb).
    exists (x :: a), b. repeat split. exact Hb.
  - destruct (N.eqb_spec x c) as [-> | Hne]; [| discriminate].
    intros [= <-]. exists [], s. repeat split. apply through_last_None, E.
Qed.

Lemma first_split (c : N) (a a' t t' : jstring) :
  a' ++ c :: t' = a ++ c :: t -> ~ In c a' -> exists x, t' = x ++ t.
Proof.
  revert a. induction a' as [|y a' IH]; intros a E H.
  - destruct a as [|z a]; cbn [app] in E.
    + injection E as ->. exists []. reflexivity.
    + injection E as _ ->. exists (a ++ [c]). rewrite <- app_assoc. reflexivity.
  - destruct a as [|z a]; cbn [app] in E.
    + injection E as -> _. exfalso. apply H. left. reflexivity.
    + injection E as _ E. apply (IH a E). intros Hin. apply H. right. exact Hin.
Qed.

(** X24. The search for an object in the text ([match] with the pattern of
    an opening brace, anything, a closing brace) finds the span from the
    first opening brace of the text to its last closing brace, and fails
    exactly when no opening brace is followed by a closing one. *)
Theorem match_object_span (raw : jstring) :
  (forall m, Str.match_object raw = Some m ->
     exists a mid b, raw = a ++ m ++ b /\ m = braced mid
                     /\ ~ In Str.lbrace a /\ ~ In Str.rbrace b)
  /\ (Str.match_object raw = None -> forall a mid b, raw <> a ++ braced mid ++ b).
Proof.
  unfold Str.match_object. split.
  - intros m. destruct (Str.from_first Str.lbrace raw) as [[|x s']|] eqn:E; try discriminate.
    destruct (Str.through_last Str.rbrace s') as [p|] eqn:E'; [| discriminate].
    intros [= <-].
    apply from_first_Some in E as (a & r & -> & [= -> ->] & Ha).
    apply through_last_Some in E' as (mid & b & -> & -> & Hb).
    exists a, mid, b. unfold braced. repeat split; assumption.
  - intros H a mid b ->. unfold braced in H. cbn [app] in H.
    destruct (Str.from_first Str.lbrace (a ++ Str.lbrace :: (mid ++ [Str.rbrace]) ++ b))
      as [[|x s']|] eqn:E.
    + apply from_first_Some in E as (? & ? & _ & [=] & _).
    + apply from_first_Some in E as (a' & r & E & [= -> ->] & Ha).
      destruct (first_split _ _ _ _ _ (eq_sym E) Ha) as [x ->].
      destruct (Str.through_last Str.rbrace _) eqn:E'; [discriminate |].
      apply through_last_None in E'. apply E'.
      rewrite <- app_assoc. apply in_or_app. right. apply in_or_app. right. left. reflexivity.
    + apply from_first_None in E. apply E. apply in_or_app. right. left. reflexivity.
Qed.







(** ** More on the speaking handler *)

Lemma poll_decide_same_body (h : host) (r r' : reply) :
  same_body r r' -> poll_decide h r = poll_decide h r'.
Proof. destruct r, r'; cbn; try tauto. intros ->. reflexivity. Qed.

Lemma run_poll_same_body (h : host) (id : jsval) (a a' : nat -> reply) (fuel : nat) :
  (forall n, same_body (a n) (a' n)) ->
  forall asked trace,
    run_poll a fuel (pollTranscript h id) asked trace
    = run_poll a' fuel (pollTranscript h id) asked trace.
Proof.
  intros H. induction fuel as [fuel IH] using lt_wf_ind. intros asked trace.
  destruct (Nat.lt_ge_cases fuel 3) as [Hlt | Hge].
  - rewrite !run_poll_short by exact Hlt. reflexivity.
  - replace fuel with (3 + (fuel - 3))%nat by lia. rewrite !run_poll_turn.
    rewrite (poll_decide_same_body h _ _ (H asked)).
    destruct (poll_decide h (a' asked)); [apply IH; lia | reflexivity].
Qed.

Lemma save_assessment_same (e e' : env) (uid : option jstring) (kind : String.string)
  (inp : input) (parsed : json) (st : store) :
  now e = now e' -> db_get_ok e = db_get_ok e' -> db_set_ok e = db_set_ok e' ->
  db_add_ok e = db_add_ok e' ->
  save_assessment e uid kind inp parsed st = save_assessment e' uid kind inp parsed st.
Proof.
  intros Hn Hg Hs Ha. unfold save_assessment, mbind, io_bind, lift, db_get, db_set, db_add.
  rewrite Hn, Hg, Hs, Ha. reflexivity.
Qed.

(** X27. The speaking handler never looks at the HTTP status of an answer
    of the transcription provider: with the same bodies under other
    statuses, error statuses included, it does the same and answers the
    same. *)
Theorem speaking_ignores_provider_status (h : host) (e e' : env) (req : speaking_req)
  (fuel : nat) (st : store) :
  same_but_statuses e e' ->
  handler_speaking h e req fuel st = handler_speaking h e' req fuel st.
Proof.
  intros (Hn & Hg & Hf & Hdg & Hds & Hda & Hu & Hj & Hs).
  assert (Eu : uploadToAssembly e = uploadToAssembly e').
  { unfold uploadToAssembly. rewrite Hf.
    destruct (upload e), (upload e'); cbn in Hu; try tauto. subst. reflexivity. }
  assert (Ej : forall url, createTranscription e url = createTranscription e' url).
  { intros url. unfold createTranscription.
    destruct (transcript_job e), (transcript_job e'); cbn in Hj; try tauto. subst. reflexivity. }
  assert (Eg : callGemini h e = callGemini h e') by (unfold callGemini; rewrite Hg; reflexivity).
  unfold handler_speaking, speaking_body. rewrite Eu.
  destruct (negb (is_post (s_method req))); [reflexivity |].
  destruct (negb (s_form_ok req)); [reflexivity |].
  destruct (negb (s_file req)); [reflexivity |].
  destruct (uploadToAssembly e') as [url|]; [| reflexivity]. rewrite Ej.
  destruct (createTranscription e' url) as [id|]; [| reflexivity].
  rewrite (run_poll_same_body h id _ _ fuel Hs).
  destruct (run_poll _ _ _ _ _) as [[polled tr]|]; [| reflexivity].
  f_equal. unfold respond. unfold_io. destruct polled as [text|]; [| reflexivity].
  rewrite Eg. destruct (callGemini h e') as [p|]; [| reflexivity].
  rewrite (save_assessment_same e e') by assumption. reflexivity.
Qed.

Lemma speaking_ignores_provider_status_witness :
  handler_speaking Sample.host0 (Sample.env_with (Sample.model_says Sample.rating))
                   Sample.speaking 9 Sample.regular
  = handler_speaking Sample.host0 (Cases.all_500 (Sample.model_says Sample.rating))
                     Sample.speaking 9 Sample.regular.
Proof.
  apply speaking_ignores_provider_status.
  repeat split. intros n. cbn. destruct (Sample.job_status n); reflexivity.
Defined.




(** X29. The speaking handler does not check the user id before it calls
    the providers: a request with a file and without a user id goes on to
    the poll loop.  But without a user id it never writes and never answers
    200: whenever it answers, the store is as it was. *)
Theorem speaking_without_uid (h : host) (e : env) (req : speaking_req) (st : store) :
  uid_truthy (s_uid req) = false ->
  (forall fuel r st', handler_speaking h e req fuel st = Some (r, st') ->
                      st' = st /\ status r <> 200%N)
  /\ (valid_speaking req ->
      forall uploadUrl id, uploadToAssembly e = Ok uploadUrl ->
                           createTranscription e uploadUrl = Ok id ->
                           handler_speaking h e req 0 st = None).
Proof.
  intros Hu. split.
  - intros fuel r st' H.
    destruct (speaking_cases h e req fuel st r st' H) as [H' | (id & t & p & Hi & _)];
      [exact H' |].
    apply doc_ref_truthy in Hi. congruence.
  - intros Hv uploadUrl id Hup Hc. unfold handler_speaking.
    rewrite (speaking_reaches_poll h e req 0 uploadUrl id Hv Hup Hc). reflexivity.
Qed.

Lemma speaking_without_uid_witness :
  exists r,
    handler_speaking Sample.host0 (Sample.env_with (Sample.model_says Sample.rating))
                     Cases.nameless 9 Sample.regular = Some (r, Sample.regular)
    /\ status r <> 200%N.
Proof.
  destruct (handler_speaking Sample.host0 (Sample.env_with (Sample.model_says Sample.rating))
              Cases.nameless 9 Sample.regular) as [[r st']|] eqn:E.
  - destruct (proj1 (speaking_without_uid Sample.host0 _ Cases.nameless Sample.regular eq_refl)
                9%nat r st' E) as [-> Hr].
    exists r. split; [reflexivity | exact Hr].
  - vm_compute in E. discriminate.
Defined.

(** ** More on JSON.parse *)

Lemma is_ws_cases (c : N) : JSON.is_ws c = true -> c = 32%N \/ c = 9%N \/ c = 10%N \/ c = 13%N.
Proof.
  unfold JSON.is_ws. rewrite !orb_true_iff, !N.eqb_eq. tauto.
Qed.

Lemma lex_leading (ws s : jstring) (toks : list JSON.token) :
  forallb JSON.is_ws ws = true ->
  JSON.lex_from JSON.LTop toks (ws ++ s) = JSON.lex_from JSON.LTop toks s.
Proof.
  induction ws as [|c ws IH]; [reflexivity |]. cbn [forallb app JSON.lex_from JSON.lex_step].
  intros H. apply andb_prop in H as [Hc Hw]. unfold JSON.top_step. rewrite Hc. apply IH, Hw.
Qed.

Lemma lex_open_string (ws acc : jstring) (toks : list JSON.token) :
  forallb JSON.is_ws ws = true -> JSON.lex_from (JSON.LStr acc) toks ws = None.
Proof.
  revert acc. induction ws as [|c ws IH]; intros acc; [reflexivity |].
  cbn [forallb]. intros H. apply andb_prop in H as [Hc Hw].
  destruct (is_ws_cases c Hc) as [-> | [-> | [-> | ->]]]; try reflexivity.
  cbn. apply IH, Hw.
Qed.

Lemma lex_trailing_nil (st : JSON.lstate) (toks : list JSON.token) (ws : jstring) :
  forallb JSON.is_ws ws = true ->
  JSON.lex_from st toks ws = JSON.lex_from st toks [].
Proof.
  destruct ws as [|c ws]; [reflexivity |]. cbn [forallb].
  intros H. apply andb_prop in H as [Hc Hw].
  pose proof (lex_leading ws []) as Hl. rewrite app_nil_r in Hl.
  destruct st as [| acc | acc | acc n v | acc].
  - cbn [JSON.lex_from JSON.lex_step]. unfold JSON.top_step. rewrite Hc. apply Hl, Hw.
  - apply (lex_open_string (c :: ws)). cbn [forallb]. rewrite Hc, Hw. reflexivity.
  - destruct (is_ws_cases c Hc) as [-> | [-> | [-> | ->]]]; reflexivity.
  - destruct (is_ws_cases c Hc) as [-> | [-> | [-> | ->]]]; reflexivity.
  - cbn [JSON.lex_from JSON.lex_step].
    assert (Hw' : JSON.is_word_char c = false)
      by (destruct (is_ws_cases c Hc) as [-> | [-> | [-> | ->]]]; reflexivity).
    rewrite Hw'. unfold JSON.top_step. rewrite Hc. apply Hl, Hw.
Qed.

Lemma lex_trailing (st : JSON.lstate) (toks : list JSON.token) (s ws : jstring) :
  forallb JSON.is_ws ws = true ->
  JSON.lex_from st toks (s ++ ws) = JSON.lex_from st toks s.
Proof.
  intros H. revert st toks. induction s as [|c s IH]; intros st toks.
  - apply lex_trailing_nil, H.
  - cbn [app JSON.lex_from]. destruct (JSON.lex_step st toks c) as [[st' toks']|]; [apply IH | reflexivity].
Qed.

(** X30. [JSON.parse] passes over blanks, tabs and line ends around the
    text: it reads a text with such characters before and after it as it
    reads the text alone; and it rejects a text made of nothing else. *)
Theorem parse_ignores_white_space (a s b : jstring) :
  forallb JSON.is_ws a = true -> forallb JSON.is_ws b = true ->
  JSON.parse (a ++ s ++ b) = JSON.parse s /\ JSON.parse a = None.
Proof.
  intros Ha Hb. unfold JSON.parse, JSON.lex. split.
  - rewrite lex_leading by exact Ha. rewrite lex_trailing by exact Hb. reflexivity.
  - rewrite (lex_trailing_nil _ _ a Ha). reflexivity.
Qed.

Lemma parse_ignores_white_space_witness :
  JSON.parse (u " " ++ uq "{'id':'job1'}" ++ [13; 10]%N) = Some (JObj [(u "id", JStr (u "job1"))]).
Proof.
  rewrite (proj1 (parse_ignores_white_space (u " ") (uq "{'id':'job1'}") [13; 10]%N
                    eq_refl eq_refl)).
  reflexivity.
Defined.
